(** * The sensor-rendering scheduler of [systems/sensors/Sensors.cc]

    A shallow embedding of [ignition::gazebo::systems::Sensors] and its
    private data class [SensorsPrivate]: the registry of rendering sensors,
    the update-rate mask, and the hand-off between the simulation thread
    ([Sensors::PostUpdate]) and the rendering thread
    ([SensorsPrivate::RenderThread]) through [renderMutex] and [renderCv].

    Conventions.
    - Simulated time ([ignition::common::Time]) is a rational number of
      seconds; [0.9 / UpdateRate()] is the exact quotient (the rounding of
      the [double] division and of the conversion to nanoseconds is not
      modelled).
    - Code of other libraries ([sensors::Manager], [RenderUtil],
      [rendering::Scene], [sdf::Sensor]) is an interface, class
      [Collaborators]; calls into it are recorded in an operation log.
    - The threads are interleaved statement by statement; a block guarded by
      one lock and free of waits is one step where nothing outside the lock
      can tell the difference.
    - Debug output ([igndbg]) and profiler macros are left out. *)

From Stdlib Require Import QArith Lia Sorted.
From stdpp Require Import gmap strings list.

Open Scope Q_scope.
Open Scope string_scope.
Open Scope list_scope.

(** ** Values of the collaborating libraries *)

(** [ignition::common::Time], in seconds. *)
Abbreviation Time := Q (only parsing).

(** [sensors::SensorId] is a [std::size_t]; [sensors::NO_SENSOR] is 0. *)
Abbreviation SensorId := N (only parsing).
Definition NO_SENSOR : SensorId := 0%N.

(** [sdf::SensorType]: [NONE], or one of the other enumerators, by number. *)
Inductive SensorType :=
| NONE
| KIND (k : nat).

Definition SensorType_is_NONE (ty : SensorType) : bool :=
  match ty with NONE => true | KIND _ => false end.

(** The part of an [sdf::Sensor] that [Sensors::CreateSensor] reads. *)
Record SdfSensor := {
  sdfType : SensorType;
  sdfName : string
}.

(** What the code observes of a [sensors::Sensor] object through its
    pointer. [isRendering] is the outcome of
    [dynamic_cast<sensors::RenderingSensor *>]. *)
Record Sensor := {
  Id : SensorId;
  Name : string;
  isRendering : bool;
  UpdateRate : Q;
  NextUpdateTime : Time
}.

(** [dynamic_cast<sensors::RenderingSensor *>(s)]; [None] is [nullptr]. *)
Definition dynamic_cast (s : option Sensor) : option Sensor :=
  match s with
  | Some x => if isRendering x then Some x else None
  | None => None
  end.

(** The component types [Sensors::PostUpdate] asks the ECM about. *)
Inductive ComponentType := Camera | DepthCamera | GpuLidar | RgbdCamera.

(** A [rendering::ScenePtr] that is not null. *)
Abbreviation Scene := N (only parsing).

(** The interface of the collaborators. *)
Class Collaborators := {
  (** [sensors::Manager] *)
  Manager : Type;
  mgrCreateSensor : SdfSensor -> Manager -> SensorId * Manager;
  mgrSensor : Manager -> SensorId -> option Sensor;
  mgrRunOnce : Time -> Manager -> Manager;
  (** [RenderUtil] *)
  RenderUtil : Type;
  utilInit : RenderUtil -> RenderUtil;
  utilScene : RenderUtil -> option Scene;
  utilUpdate : RenderUtil -> RenderUtil;
  utilPendingSensors : RenderUtil -> Z;
  (** [UpdateInfo] and [EntityComponentManager] *)
  UpdateInfo : Type;
  simTime : UpdateInfo -> Time;
  ECM : Type;
  HasComponentType : ECM -> ComponentType -> bool;
  utilUpdateFromECM : UpdateInfo -> ECM -> RenderUtil -> RenderUtil
}.

(** Calls into the collaborators and writes the properties below observe,
    in the order the program performs them. *)
Inductive Op :=
| OpErr (msg : string)                         (* ignerr << msg *)
| OpInit                                       (* renderUtil.Init() *)
| OpUpdate                                     (* renderUtil.Update() *)
| OpUpdateFromECM (t : Time)                   (* renderUtil.UpdateFromECM *)
| OpMask (id : SensorId) (deadline : Time)     (* sensorMask[id] = deadline *)
| OpPreRender (sc : Scene)                     (* scene->PreRender() *)
| OpSensorsRunOnce (t : Time)                  (* sensorManager.RunOnce(t) *)
| OpSetScene (id : SensorId) (sc : option Scene)
| OpSetParent (id : SensorId) (parent : string)
| OpSetManualSceneUpdate (id : SensorId) (b : bool)
| OpSpawn                                      (* std::thread constructed *)
| OpJoin.                                      (* renderThread.join() *)

(** Ways the process can die. *)
Inductive Fault :=
| NullDereference     (* a member call through a null pointer *)
| StdTerminate.       (* std::terminate() *)

(** ** The update-rate mask *)

(** [ignition::common::Time delta(0.9 / sensor->UpdateRate())] *)
Definition maskDelta (s : Sensor) : Time := (9 # 10) / UpdateRate s.

(** The loop of [SensorsPrivate::RunOnce] over [activeSensors]:
    [sensorMask[sensor->Id()] = updateTime + delta]. *)
Fixpoint maskActive (updateTime : Time) (active : list Sensor)
    (mask : gmap N Q) : gmap N Q :=
  match active with
  | [] => mask
  | s :: rest =>
      maskActive updateTime rest (<[Id s := updateTime + maskDelta s]> mask)
  end.

(** The log entries of that loop. *)
Definition maskOps (updateTime : Time) (active : list Sensor) : list Op :=
  map (fun s => OpMask (Id s) (updateTime + maskDelta s)) active.

(** ** The scan of [Sensors::PostUpdate] *)

Section Scan.
Context `{Collaborators}.

(** One iteration of [for (auto id : sensorIds)]. *)
Definition scanSensor (mgr : Manager) (t : Time) (id : SensorId)
    (acc : gmap N Q * list Sensor) : gmap N Q * list Sensor :=
  let '(mask, active) := acc in
  let rs := dynamic_cast (mgrSensor mgr id) in
  let due (mask' : gmap N Q) :=
    match rs with
    | Some r =>
        if Qle_bool (NextUpdateTime r) t
        then (mask', active ++ [r])
        else (mask', active)
    | None => (mask', active)
    end in
  match mask !! id with
  | Some deadline =>
      if Qle_bool deadline t
      then due (delete id mask)
      else (mask, active)                    (* continue *)
  | None => due mask
  end.

(** The whole loop; [sensorIds] is a [std::set], iterated in ascending
    order. *)
Definition scanFrom (mgr : Manager) (t : Time) (ids : list SensorId)
    (acc : gmap N Q * list Sensor) : gmap N Q * list Sensor :=
  fold_left (fun a id => scanSensor mgr t id a) ids acc.

Definition scan (mgr : Manager) (t : Time) (ids : list SensorId)
    (mask : gmap N Q) : gmap N Q * list Sensor :=
  scanFrom mgr t ids (mask, []).
End Scan.

(** [std::set<sensors::SensorId>::insert]: the set is kept as its ascending
    list of elements. *)
Fixpoint set_insert (x : SensorId) (l : list SensorId) : list SensorId :=
  match l with
  | [] => [x]
  | y :: rest =>
      if (x <? y)%N then x :: l
      else if (x =? y)%N then l
      else y :: set_insert x rest
  end.

(** ** [class SensorsPrivate] *)

(** The threads: the simulation thread that calls [Sensors::PostUpdate], the
    rendering thread started by [SensorsPrivate::Run], and the thread that
    calls [Run] (from [Sensors::Configure]) and [Stop] (from the
    [events::Stop] connection and from [Sensors::~Sensors]). *)
Inductive Tid := SimT | RenderT | CtlT.

Section Model.
Context `{Collaborators}.

(** The fields of [SensorsPrivate]. [renderThread] is
    [renderThread.joinable()]; [renderMutex] is the owner of the mutex;
    the threads waiting on [renderCv] are read off the program counters
    below; [sensorMaskMutex] guards blocks that are single steps here. *)
Record SensorsPrivate := {
  sensorManager : Manager;
  initialized : bool;
  renderUtil : RenderUtil;
  sensorIds : list SensorId;
  scene : option Scene;
  running : bool;
  doInit : bool;
  updateAvailable : bool;
  renderThread : bool;
  renderMutex : option Tid;
  updateTime : Time;
  activeSensors : list Sensor;
  sensorMask : gmap N Q
}.

Definition set_sensorManager (v : Manager) (d : SensorsPrivate) :=
  Build_SensorsPrivate v (initialized d) (renderUtil d) (sensorIds d) (scene d) (running d) (doInit d) (updateAvailable d) (renderThread d) (renderMutex d) (updateTime d) (activeSensors d) (sensorMask d).
Definition set_initialized (v : bool) (d : SensorsPrivate) :=
  Build_SensorsPrivate (sensorManager d) v (renderUtil d) (sensorIds d) (scene d) (running d) (doInit d) (updateAvailable d) (renderThread d) (renderMutex d) (updateTime d) (activeSensors d) (sensorMask d).
Definition set_renderUtil (v : RenderUtil) (d : SensorsPrivate) :=
  Build_SensorsPrivate (sensorManager d) (initialized d) v (sensorIds d) (scene d) (running d) (doInit d) (updateAvailable d) (renderThread d) (renderMutex d) (updateTime d) (activeSensors d) (sensorMask d).
Definition set_sensorIds (v : list SensorId) (d : SensorsPrivate) :=
  Build_SensorsPrivate (sensorManager d) (initialized d) (renderUtil d) v (scene d) (running d) (doInit d) (updateAvailable d) (renderThread d) (renderMutex d) (updateTime d) (activeSensors d) (sensorMask d).
Definition set_scene (v : option Scene) (d : SensorsPrivate) :=
  Build_SensorsPrivate (sensorManager d) (initialized d) (renderUtil d) (sensorIds d) v (running d) (doInit d) (updateAvailable d) (renderThread d) (renderMutex d) (updateTime d) (activeSensors d) (sensorMask d).
Definition set_running (v : bool) (d : SensorsPrivate) :=
  Build_SensorsPrivate (sensorManager d) (initialized d) (renderUtil d) (sensorIds d) (scene d) v (doInit d) (updateAvailable d) (renderThread d) (renderMutex d) (updateTime d) (activeSensors d) (sensorMask d).
Definition set_doInit (v : bool) (d : SensorsPrivate) :=
  Build_SensorsPrivate (sensorManager d) (initialized d) (renderUtil d) (sensorIds d) (scene d) (running d) v (updateAvailable d) (renderThread d) (renderMutex d) (updateTime d) (activeSensors d) (sensorMask d).
Definition set_updateAvailable (v : bool) (d : SensorsPrivate) :=
  Build_SensorsPrivate (sensorManager d) (initialized d) (renderUtil d) (sensorIds d) (scene d) (running d) (doInit d) v (renderThread d) (renderMutex d) (updateTime d) (activeSensors d) (sensorMask d).
Definition set_renderThread (v : bool) (d : SensorsPrivate) :=
  Build_SensorsPrivate (sensorManager d) (initialized d) (renderUtil d) (sensorIds d) (scene d) (running d) (doInit d) (updateAvailable d) v (renderMutex d) (updateTime d) (activeSensors d) (sensorMask d).
Definition set_renderMutex (v : option Tid) (d : SensorsPrivate) :=
  Build_SensorsPrivate (sensorManager d) (initialized d) (renderUtil d) (sensorIds d) (scene d) (running d) (doInit d) (updateAvailable d) (renderThread d) v (updateTime d) (activeSensors d) (sensorMask d).
Definition set_updateTime (v : Time) (d : SensorsPrivate) :=
  Build_SensorsPrivate (sensorManager d) (initialized d) (renderUtil d) (sensorIds d) (scene d) (running d) (doInit d) (updateAvailable d) (renderThread d) (renderMutex d) v (activeSensors d) (sensorMask d).
Definition set_activeSensors (v : list Sensor) (d : SensorsPrivate) :=
  Build_SensorsPrivate (sensorManager d) (initialized d) (renderUtil d) (sensorIds d) (scene d) (running d) (doInit d) (updateAvailable d) (renderThread d) (renderMutex d) (updateTime d) v (sensorMask d).
Definition set_sensorMask (v : gmap N Q) (d : SensorsPrivate) :=
  Build_SensorsPrivate (sensorManager d) (initialized d) (renderUtil d) (sensorIds d) (scene d) (running d) (doInit d) (updateAvailable d) (renderThread d) (renderMutex d) (updateTime d) (activeSensors d) v.

(** A freshly constructed [SensorsPrivate] (the default member
    initialisers of the class). *)
Definition newSensorsPrivate (mgr : Manager) (util : RenderUtil)
    : SensorsPrivate :=
  {| sensorManager := mgr; initialized := false; renderUtil := util;
     sensorIds := []; scene := None; running := false; doInit := false;
     updateAvailable := false; renderThread := false;
     renderMutex := None; updateTime := 0; activeSensors := [];
     sensorMask := ∅ |}.

(** ** [Sensors::CreateSensor] *)

(** What a call leaves behind: the data, the operations it performed, and
    the returned string or the fault that ended it. *)
Record Created := {
  createdData : SensorsPrivate;
  createdOps : list Op;
  createdResult : Fault + string
}.

Definition msgTypeNone : string :=
  "Unable to create sensor. SDF sensor type is NONE.".
Definition msgFailed (name : string) : string :=
  "Failed to create sensor [" ++ name ++ "]".

Definition CreateSensor (_sdf : SdfSensor) (_parentName : string)
    (d : SensorsPrivate) : Created :=
  if SensorType_is_NONE (sdfType _sdf) then
    {| createdData := d;
       createdOps := [OpErr msgTypeNone];
       createdResult := inr "" |}
  else
    (* Create within ign-sensors *)
    let '(sensorId, mgr) := mgrCreateSensor _sdf (sensorManager d) in
    let sensor := mgrSensor mgr sensorId in
    let d1 :=
      set_sensorIds (set_insert sensorId (sensorIds d))
        (set_sensorManager mgr d) in
    let failed :=
      match sensor with
      | None => true
      | Some s => (NO_SENSOR =? Id s)%N
      end in
    let ops1 := if failed then [OpErr (msgFailed (sdfName _sdf))] else [] in
    (* Set the scene so it can create the rendering sensor *)
    match dynamic_cast sensor with
    | None =>
        {| createdData := d1;
           createdOps := ops1;
           createdResult := inl NullDereference |}
    | Some renderingSensor =>
        {| createdData := d1;
           createdOps :=
             ops1 ++ [OpSetScene (Id renderingSensor) (scene d);
                      OpSetParent (Id renderingSensor) _parentName;
                      OpSetManualSceneUpdate (Id renderingSensor) true];
           createdResult := inr (Name renderingSensor) |}
    end.

(** ** The three threads *)

(** Where the rendering thread is, by the line of [Sensors.cc] it is
    about to execute. *)
Inductive RenderPc :=
| R_none                    (* no rendering thread was started *)
| R_WaitForInit_while       (* 120 *)
| R_WaitForInit_wait        (* 123-127, about to take the lock and test *)
| R_WaitForInit_blocked     (* inside renderCv.wait *)
| R_WaitForInit_doInit      (* 129-136 *)
| R_WaitForInit_notify      (* 138-140 *)
| R_RenderThread_while      (* 207 *)
| R_RunOnce_wait            (* 147-150 *)
| R_RunOnce_blocked         (* inside renderCv.wait *)
| R_RunOnce_running         (* 152 *)
| R_RunOnce_Update          (* 158 *)
| R_RunOnce_empty           (* 161 *)
| R_RunOnce_mask            (* 164-172 *)
| R_RunOnce_PreRender       (* 180 *)
| R_RunOnce_RunOnce         (* 186 *)
| R_RunOnce_clear           (* 189 *)
| R_RunOnce_unlock          (* 192-193 *)
| R_RunOnce_notify          (* 194 *)
| R_exited.                 (* RenderThread returned *)

(** Where the simulation thread is inside [Sensors::PostUpdate], with the
    locals [t] and [activeSensors] once they exist. *)
Inductive SimPc :=
| S_idle
| S_needInit (info : UpdateInfo) (ecm : ECM)        (* 277-281 *)
| S_doInit (info : UpdateInfo) (ecm : ECM)          (* 284-287 *)
| S_running (info : UpdateInfo) (ecm : ECM)         (* 289 *)
| S_UpdateFromECM (info : UpdateInfo) (ecm : ECM)   (* 291 *)
| S_scan (t : Time)                                 (* 293-323 *)
| S_due (t : Time) (active : list Sensor)           (* 325 *)
| S_wait (t : Time) (active : list Sensor)          (* 327-329 *)
| S_blocked (t : Time) (active : list Sensor)       (* inside wait *)
| S_stopped (t : Time) (active : list Sensor)       (* 331 *)
| S_publish (t : Time) (active : list Sensor).      (* 336-340 *)

(** Where the controlling thread is inside [Run] or [Stop]. *)
Inductive CtlPc :=
| C_idle
| C_Run_running             (* 218 *)
| C_Run_thread              (* 219 *)
| C_Stop_running            (* 226-228 *)
| C_Stop_notify             (* 229 *)
| C_Stop_join.              (* 231-234 *)

Record State := {
  priv : SensorsPrivate;
  simPc : SimPc;
  renderPc : RenderPc;
  ctlPc : CtlPc;
  log : list Op;
  fault : option Fault
}.

Definition set_priv (v : SensorsPrivate) (st : State) :=
  Build_State v (simPc st) (renderPc st) (ctlPc st) (log st) (fault st).
Definition set_simPc (v : SimPc) (st : State) :=
  Build_State (priv st) v (renderPc st) (ctlPc st) (log st) (fault st).
Definition set_renderPc (v : RenderPc) (st : State) :=
  Build_State (priv st) (simPc st) v (ctlPc st) (log st) (fault st).
Definition set_ctlPc (v : CtlPc) (st : State) :=
  Build_State (priv st) (simPc st) (renderPc st) v (log st) (fault st).
Definition set_fault (v : Fault) (st : State) :=
  Build_State (priv st) (simPc st) (renderPc st) (ctlPc st) (log st) (Some v).
Definition emit (ops : list Op) (st : State) :=
  Build_State (priv st) (simPc st) (renderPc st) (ctlPc st) (log st ++ ops) (fault st).
Definition upd (f : SensorsPrivate -> SensorsPrivate) (st : State) :=
  set_priv (f (priv st)) st.

Definition initial (mgr : Manager) (util : RenderUtil) : State :=
  {| priv := newSensorsPrivate mgr util; simPc := S_idle;
     renderPc := R_none; ctlPc := C_idle; log := []; fault := None |}.

(** *** [renderMutex] and [renderCv] *)

Definition unlocked (st : State) : bool :=
  match renderMutex (priv st) with None => true | Some _ => false end.
Definition lock (t : Tid) : State -> State := upd (set_renderMutex (Some t)).
Definition unlock : State -> State := upd (set_renderMutex None).

Definition renderBlocked (st : State) : bool :=
  match renderPc st with
  | R_WaitForInit_blocked | R_RunOnce_blocked => true
  | _ => false
  end.
Definition simBlocked (st : State) : bool :=
  match simPc st with S_blocked _ _ => true | _ => false end.

Definition waiting (t : Tid) (st : State) : bool :=
  match t with
  | RenderT => renderBlocked st
  | SimT => simBlocked st
  | CtlT => false
  end.

(** The threads inside [renderCv.wait]. *)
Definition waiters (st : State) : list Tid :=
  (if renderBlocked st then [RenderT] else []) ++
  (if simBlocked st then [SimT] else []).

(** A woken thread has to take the lock again and re-test its predicate:
    it is back where it entered the wait. *)
Definition wake (t : Tid) (st : State) : State :=
  match t with
  | RenderT =>
      match renderPc st with
      | R_WaitForInit_blocked => set_renderPc R_WaitForInit_wait st
      | R_RunOnce_blocked => set_renderPc R_RunOnce_wait st
      | _ => st
      end
  | SimT =>
      match simPc st with
      | S_blocked t a => set_simPc (S_wait t a) st
      | _ => st
      end
  | CtlT => st
  end.

(** [renderCv.notify_one()]. The caller is not waiting and the
    controlling thread never waits, so there is at most one candidate. *)
Definition notify_one (st : State) : State :=
  match waiters st with
  | t :: _ => wake t st
  | [] => st
  end.

(** [renderCv.notify_all()] *)
Definition notify_all (st : State) : State :=
  wake SimT (wake RenderT st).


(** *** [SensorsPrivate::WaitForInit], [RunOnce] and [RenderThread] *)

Definition stepRender (st : State) : option State :=
  let d := priv st in
  match renderPc st with
  | R_none | R_exited => None
  | R_WaitForInit_while =>
      (* while (!this->initialized && this->running) *)
      if negb (initialized d) && running d
      then Some (set_renderPc R_WaitForInit_wait st)
      else Some (set_renderPc R_RenderThread_while st)
  | R_WaitForInit_wait =>
      (* lock(renderMutex); renderCv.wait(lock, doInit || !running) *)
      if unlocked st then
        if doInit d || negb (running d)
        then Some (set_renderPc R_WaitForInit_doInit (lock RenderT st))
        else Some (set_renderPc R_WaitForInit_blocked st)
      else None
  | R_WaitForInit_blocked => None
  | R_WaitForInit_doInit =>
      if doInit d then
        (* renderUtil.Init(); scene = renderUtil.Scene(); initialized = true *)
        let util := utilInit (renderUtil d) in
        Some (set_renderPc R_WaitForInit_notify
                (upd (set_initialized true)
                   (upd (set_scene (utilScene util))
                      (upd (set_renderUtil util) (emit [OpInit] st)))))
      else Some (set_renderPc R_WaitForInit_notify st)
  | R_WaitForInit_notify =>
      (* updateAvailable = false; renderCv.notify_one(); } *)
      Some (set_renderPc R_WaitForInit_while
              (unlock (notify_one (upd (set_updateAvailable false) st))))
  | R_RenderThread_while =>
      (* while (this->running) *)
      if running d
      then Some (set_renderPc R_RunOnce_wait st)
      else Some (set_renderPc R_exited st)
  | R_RunOnce_wait =>
      (* lock(renderMutex); renderCv.wait(lock, !running || updateAvailable) *)
      if unlocked st then
        if negb (running d) || updateAvailable d
        then Some (set_renderPc R_RunOnce_running (lock RenderT st))
        else Some (set_renderPc R_RunOnce_blocked st)
      else None
  | R_RunOnce_blocked => None
  | R_RunOnce_running =>
      (* if (!this->running) return; *)
      if negb (running d)
      then Some (set_renderPc R_RenderThread_while (unlock st))
      else Some (set_renderPc R_RunOnce_Update st)
  | R_RunOnce_Update =>
      (* this->renderUtil.Update(); *)
      Some (set_renderPc R_RunOnce_empty
              (upd (set_renderUtil (utilUpdate (renderUtil d)))
                 (emit [OpUpdate] st)))
  | R_RunOnce_empty =>
      (* if (!this->activeSensors.empty()) *)
      match activeSensors d with
      | [] => Some (set_renderPc R_RunOnce_unlock st)
      | _ :: _ => Some (set_renderPc R_RunOnce_mask st)
      end
  | R_RunOnce_mask =>
      (* for (sensor : activeSensors) sensorMask[sensor->Id()] = ... *)
      Some (set_renderPc R_RunOnce_PreRender
              (upd (set_sensorMask
                      (maskActive (updateTime d) (activeSensors d)
                         (sensorMask d)))
                 (emit (maskOps (updateTime d) (activeSensors d)) st)))
  | R_RunOnce_PreRender =>
      (* this->scene->PreRender(); *)
      match scene d with
      | Some sc => Some (set_renderPc R_RunOnce_RunOnce (emit [OpPreRender sc] st))
      | None => Some (set_fault NullDereference st)
      end
  | R_RunOnce_RunOnce =>
      (* this->sensorManager.RunOnce(this->updateTime); *)
      Some (set_renderPc R_RunOnce_clear
              (upd (set_sensorManager
                      (mgrRunOnce (updateTime d) (sensorManager d)))
                 (emit [OpSensorsRunOnce (updateTime d)] st)))
  | R_RunOnce_clear =>
      (* this->activeSensors.clear(); *)
      Some (set_renderPc R_RunOnce_unlock (upd (set_activeSensors []) st))
  | R_RunOnce_unlock =>
      (* this->updateAvailable = false; lock.unlock(); *)
      Some (set_renderPc R_RunOnce_notify
              (unlock (upd (set_updateAvailable false) st)))
  | R_RunOnce_notify =>
      (* this->renderCv.notify_one(); *)
      Some (set_renderPc R_RenderThread_while (notify_one st))
  end.

(** *** [Sensors::PostUpdate] *)

Definition hasRenderingComponent (ecm : ECM) : bool :=
  HasComponentType ecm Camera || HasComponentType ecm DepthCamera ||
  HasComponentType ecm GpuLidar || HasComponentType ecm RgbdCamera.

Definition stepSim (st : State) : option State :=
  let d := priv st in
  match simPc st with
  | S_idle => None
  | S_needInit info ecm =>
      (* if (!initialized && (_ecm.HasComponentType(...) || ...)) *)
      if negb (initialized d) && hasRenderingComponent ecm
      then Some (set_simPc (S_doInit info ecm) st)
      else Some (set_simPc (S_running info ecm) st)
  | S_doInit info ecm =>
      (* lock(renderMutex); doInit = true; renderCv.notify_one(); } *)
      if unlocked st
      then Some (set_simPc (S_running info ecm)
                   (notify_one (upd (set_doInit true) st)))
      else None
  | S_running info ecm =>
      (* if (this->dataPtr->running && this->dataPtr->initialized) *)
      if running d && initialized d
      then Some (set_simPc (S_UpdateFromECM info ecm) st)
      else Some (set_simPc S_idle st)
  | S_UpdateFromECM info ecm =>
      (* renderUtil.UpdateFromECM(_info, _ecm); t = Time(_info.simTime) *)
      Some (set_simPc (S_scan (simTime info))
              (upd (set_renderUtil (utilUpdateFromECM info ecm (renderUtil d)))
                 (emit [OpUpdateFromECM (simTime info)] st)))
  | S_scan t =>
      (* for (auto id : this->dataPtr->sensorIds) ... *)
      let r := scan (sensorManager d) t (sensorIds d) (sensorMask d) in
      Some (set_simPc (S_due t (snd r)) (upd (set_sensorMask (fst r)) st))
  | S_due t active =>
      (* if (activeSensors.size() || renderUtil.PendingSensors() > 0) *)
      if negb (Nat.eqb (length active) 0)
         || (0 <? utilPendingSensors (renderUtil d))%Z
      then Some (set_simPc (S_wait t active) st)
      else Some (set_simPc S_idle st)
  | S_wait t active =>
      (* lock(renderMutex); renderCv.wait(lock, !running || !updateAvailable) *)
      if unlocked st then
        if negb (running d) || negb (updateAvailable d)
        then Some (set_simPc (S_stopped t active) (lock SimT st))
        else Some (set_simPc (S_blocked t active) st)
      else None
  | S_blocked _ _ => None
  | S_stopped t active =>
      (* if (!this->dataPtr->running) return; *)
      if negb (running d)
      then Some (set_simPc S_idle (unlock st))
      else Some (set_simPc (S_publish t active) st)
  | S_publish t active =>
      (* activeSensors = std::move(activeSensors); updateTime = t;
         updateAvailable = true; renderCv.notify_one(); } *)
      Some (set_simPc S_idle
              (unlock
                 (notify_one
                    (upd (set_updateAvailable true)
                       (upd (set_updateTime t)
                          (upd (set_activeSensors active) st))))))
  end.

(** *** [SensorsPrivate::Run] and [SensorsPrivate::Stop] *)

Definition stepCtl (st : State) : option State :=
  let d := priv st in
  match ctlPc st with
  | C_idle => None
  | C_Run_running =>
      (* this->running = true; *)
      Some (set_ctlPc C_Run_thread (upd (set_running true) st))
  | C_Run_thread =>
      (* this->renderThread = std::thread(&SensorsPrivate::RenderThread, this);
         the thread is constructed, then move-assigned; assigning to a
         joinable std::thread calls std::terminate() *)
      if renderThread d
      then Some (set_fault StdTerminate (emit [OpSpawn] st))
      else Some (set_ctlPc C_idle
                   (set_renderPc R_WaitForInit_while
                      (upd (set_renderThread true) (emit [OpSpawn] st))))
  | C_Stop_running =>
      (* lock(renderMutex); this->running = false; lock.unlock(); *)
      if unlocked st
      then Some (set_ctlPc C_Stop_notify (upd (set_running false) st))
      else None
  | C_Stop_notify =>
      (* this->renderCv.notify_all(); *)
      Some (set_ctlPc C_Stop_join (notify_all st))
  | C_Stop_join =>
      (* if (this->renderThread.joinable()) this->renderThread.join(); *)
      if renderThread d then
        match renderPc st with
        | R_exited =>
            Some (set_ctlPc C_idle
                    (upd (set_renderThread false) (emit [OpJoin] st)))
        | _ => None
        end
      else Some (set_ctlPc C_idle st)
  end.

(** *** The interleaving *)

(** What can happen next: a thread enters one of the public functions, a
    thread executes its next statement, a waiting thread wakes up
    spuriously, or [RenderUtil] invokes the callback that
    [Sensors::Configure] registered with [SetEnableSensors]. *)
Inductive Label :=
| CallPostUpdate (info : UpdateInfo) (ecm : ECM)
| CallRun
| CallStop
| Next (t : Tid)
| SpuriousWakeup (t : Tid)
| Callback (sdf : SdfSensor) (parentName : string).

Definition stepCallback (sdf : SdfSensor) (parentName : string)
    (st : State) : State :=
  let c := CreateSensor sdf parentName (priv st) in
  let st' := set_priv (createdData c) (emit (createdOps c) st) in
  match createdResult c with
  | inl f => set_fault f st'
  | inr _ => st'
  end.

Definition step (l : Label) (st : State) : option State :=
  match fault st with
  | Some _ => None
  | None =>
      match l with
      | CallPostUpdate info ecm =>
          match simPc st with
          | S_idle => Some (set_simPc (S_needInit info ecm) st)
          | _ => None
          end
      | CallRun =>
          match ctlPc st with
          | C_idle => Some (set_ctlPc C_Run_running st)
          | _ => None
          end
      | CallStop =>
          match ctlPc st with
          | C_idle => Some (set_ctlPc C_Stop_running st)
          | _ => None
          end
      | Next SimT => stepSim st
      | Next RenderT => stepRender st
      | Next CtlT => stepCtl st
      | SpuriousWakeup t =>
          if waiting t st then Some (wake t st) else None
      | Callback sdf parentName => Some (stepCallback sdf parentName st)
      end
  end.

Fixpoint exec (ls : list Label) (st : State) : option State :=
  match ls with
  | [] => Some st
  | l :: rest =>
      match step l st with
      | Some st' => exec rest st'
      | None => None
      end
  end.

(** [Sensors::Configure] is the only caller of [Run], once per system: the
    schedules considered start the rendering thread at most once. *)
Definition allowed (l : Label) (st : State) : bool :=
  match l with
  | CallRun =>
      match renderPc st with R_none => true | _ => false end
  | _ => true
  end.

(** The case the second scenario of the specification describes: no
    rendering sensor ever appears, so no step of the simulation sees a
    rendering component and the callback is never invoked. *)
Definition quiet (l : Label) (st : State) : bool :=
  allowed l st &&
  match l with
  | CallPostUpdate _ ecm => negb (hasRenderingComponent ecm)
  | Callback _ _ => false
  | _ => true
  end.

(** The states a schedule of permitted steps leads to from a freshly
    constructed system. *)
Inductive reachableBy (ok : Label -> State -> bool) : State -> Prop :=
| reachable_initial mgr util : reachableBy ok (initial mgr util)
| reachable_step st l st' :
    reachableBy ok st -> ok l st = true -> step l st = Some st' ->
    reachableBy ok st'.

Definition reachable : State -> Prop := reachableBy allowed.

(** *** Classes of program counters *)

(** The rendering thread owns [renderMutex]. *)
Definition Rlocked (pc : RenderPc) : bool :=
  match pc with
  | R_WaitForInit_doInit | R_WaitForInit_notify | R_RunOnce_running
  | R_RunOnce_Update | R_RunOnce_empty | R_RunOnce_mask
  | R_RunOnce_PreRender | R_RunOnce_RunOnce | R_RunOnce_clear
  | R_RunOnce_unlock => true
  | _ => false
  end.

(** The rendering thread is inside a pass: it has claimed a request and not
    yet cleared [updateAvailable]. *)
Definition Rpass (pc : RenderPc) : bool :=
  match pc with
  | R_RunOnce_Update | R_RunOnce_empty | R_RunOnce_mask
  | R_RunOnce_PreRender | R_RunOnce_RunOnce | R_RunOnce_clear
  | R_RunOnce_unlock => true
  | _ => false
  end.

(** The rendering thread does not exist or has not initialised yet. *)
Definition Rearly (pc : RenderPc) : bool :=
  match pc with
  | R_none | R_WaitForInit_wait | R_WaitForInit_blocked
  | R_WaitForInit_doInit => true
  | _ => false
  end.

(** No rendering thread is executing. *)
Definition Rgone (pc : RenderPc) : bool :=
  match pc with R_none | R_exited => true | _ => false end.

(** The simulation thread owns [renderMutex]. *)
Definition Slocked (pc : SimPc) : bool :=
  match pc with S_stopped _ _ | S_publish _ _ => true | _ => false end.

(** The simulation thread is past the test of line 289. *)
Definition Sinside (pc : SimPc) : bool :=
  match pc with
  | S_UpdateFromECM _ _ | S_scan _ | S_due _ _ | S_wait _ _ | S_blocked _ _
  | S_stopped _ _ | S_publish _ _ => true
  | _ => false
  end.

(** The pending render request: the sensors, the time and the flag. *)
Definition request (st : State) : list Sensor * Time * bool :=
  (activeSensors (priv st), updateTime (priv st), updateAvailable (priv st)).

(** The number of passes begun: calls of [renderUtil.Update()]. *)
Definition passes (ops : list Op) : nat :=
  length (List.filter (fun o => match o with OpUpdate => true | _ => false end) ops).

Definition joins (ops : list Op) : nat :=
  length (List.filter (fun o => match o with OpJoin => true | _ => false end) ops).

Definition spawns (ops : list Op) : nat :=
  length (List.filter (fun o => match o with OpSpawn => true | _ => false end) ops).

End Model.


(** A schedule whose every step is permitted. *)
Fixpoint run `{Collaborators} (ok : Label -> State -> bool) (ls : list Label)
    (st : State) : option State :=
  match ls with
  | [] => Some st
  | l :: rest =>
      if ok l st then
        match step l st with
        | Some st' => run ok rest st'
        | None => None
        end
      else None
  end.

(** *** Functions executed without interference *)

(** Thread [t] is back where its function returns, or the process died. *)
Definition finished `{Collaborators} (t : Tid) (st : State) : bool :=
  match fault st with
  | Some _ => true
  | None =>
      match t with
      | SimT => match simPc st with S_idle => true | _ => false end
      | RenderT =>
          match renderPc st with R_RenderThread_while => true | _ => false end
      | CtlT => match ctlPc st with C_idle => true | _ => false end
      end
  end.

(** Thread [t] executes alone until its function returns; [None] when it
    blocks or runs out of fuel. *)
Fixpoint alone `{Collaborators} (t : Tid) (fuel : nat) (st : State)
    : option State :=
  match fuel with
  | O => None
  | S n =>
      match step (Next t) st with
      | None => None
      | Some st' => if finished t st' then Some st' else alone t n st'
      end
  end.

(** One call of [SensorsPrivate::RunOnce] by the rendering thread, which is
    about to execute line 147. *)
Definition RunOnce `{Collaborators} (st : State) : option State :=
  alone RenderT 12 st.

(** One call of [Sensors::PostUpdate] by the simulation thread. *)
Definition PostUpdate `{Collaborators} (info : UpdateInfo) (ecm : ECM)
    (st : State) : option State :=
  match step (CallPostUpdate info ecm) st with
  | Some st' => alone SimT 12 st'
  | None => None
  end.

(** One call of [SensorsPrivate::Run], of [SensorsPrivate::Stop]. *)
Definition Run `{Collaborators} (st : State) : option State :=
  match step CallRun st with
  | Some st' => alone CtlT 4 st'
  | None => None
  end.

Definition Stop `{Collaborators} (st : State) : option State :=
  match step CallStop st with
  | Some st' => alone CtlT 4 st'
  | None => None
  end.

(** The order of a pass as the specification words it: synchronise the
    scene, pre-render once, publish the sensors, then update the mask of
    every sensor of the request. *)
Definition specPassOps (sc : Scene) (t : Time) (active : list Sensor)
    : list Op :=
  [OpUpdate; OpPreRender sc; OpSensorsRunOnce t] ++ maskOps t active.

(** ** The control skeleton *)

(** The program counter of the simulation thread without its locals. *)
Inductive SimK :=
| K_idle
| K_needInit (rendering : bool)   (* whether the ECM has a rendering component *)
| K_doInit | K_running | K_UpdateFromECM | K_scan
| K_due | K_wait | K_blocked | K_stopped | K_publish.

(** What the lock discipline depends on: the flags, the owner of the mutex
    and the three program counters. *)
Record Skel := {
  k_initialized : bool;
  k_running : bool;
  k_doInit : bool;
  k_updateAvailable : bool;
  k_renderThread : bool;
  k_renderMutex : option Tid;
  k_sim : SimK;
  k_render : RenderPc;
  k_ctl : CtlPc;
  k_fault : bool
}.

(** A step of the skeleton: who moves, and how the one test of the step
    that looks at data comes out. *)
Inductive KLabel :=
| KCallPostUpdate (rendering : bool)
| KCallRun | KCallStop
| KNext (t : Tid) (b : bool)
| KSpuriousWakeup (t : Tid)
| KCallback (b : bool).

Definition k_wake (t : Tid) (k : Skel) : Skel :=
  match t with
  | RenderT =>
      match k_render k with
      | R_WaitForInit_blocked =>
          Build_Skel (k_initialized k) (k_running k) (k_doInit k) (k_updateAvailable k) (k_renderThread k) (k_renderMutex k) (k_sim k) R_WaitForInit_wait (k_ctl k) (k_fault k)
      | R_RunOnce_blocked =>
          Build_Skel (k_initialized k) (k_running k) (k_doInit k) (k_updateAvailable k) (k_renderThread k) (k_renderMutex k) (k_sim k) R_RunOnce_wait (k_ctl k) (k_fault k)
      | _ => k
      end
  | SimT =>
      match k_sim k with
      | K_blocked =>
          Build_Skel (k_initialized k) (k_running k) (k_doInit k) (k_updateAvailable k) (k_renderThread k) (k_renderMutex k) K_wait (k_render k) (k_ctl k) (k_fault k)
      | _ => k
      end
  | CtlT => k
  end.

Definition k_renderBlocked (k : Skel) : bool :=
  match k_render k with
  | R_WaitForInit_blocked | R_RunOnce_blocked => true
  | _ => false
  end.
Definition k_simBlocked (k : Skel) : bool :=
  match k_sim k with K_blocked => true | _ => false end.

Definition k_notify_one (k : Skel) : Skel :=
  if k_renderBlocked k then k_wake RenderT k
  else if k_simBlocked k then k_wake SimT k else k.

Definition k_notify_all (k : Skel) : Skel := k_wake SimT (k_wake RenderT k).

Definition k_unlocked (k : Skel) : bool :=
  match k_renderMutex k with None => true | Some _ => false end.

Definition with_sim (pc : SimK) (k : Skel) :=
  Build_Skel (k_initialized k) (k_running k) (k_doInit k) (k_updateAvailable k) (k_renderThread k) (k_renderMutex k) pc (k_render k) (k_ctl k) (k_fault k).
Definition with_render (pc : RenderPc) (k : Skel) :=
  Build_Skel (k_initialized k) (k_running k) (k_doInit k) (k_updateAvailable k) (k_renderThread k) (k_renderMutex k) (k_sim k) pc (k_ctl k) (k_fault k).
Definition with_ctl (pc : CtlPc) (k : Skel) :=
  Build_Skel (k_initialized k) (k_running k) (k_doInit k) (k_updateAvailable k) (k_renderThread k) (k_renderMutex k) (k_sim k) (k_render k) pc (k_fault k).
Definition with_mutex (m : option Tid) (k : Skel) :=
  Build_Skel (k_initialized k) (k_running k) (k_doInit k) (k_updateAvailable k) (k_renderThread k) m (k_sim k) (k_render k) (k_ctl k) (k_fault k).
Definition with_initialized (b : bool) (k : Skel) :=
  Build_Skel b (k_running k) (k_doInit k) (k_updateAvailable k) (k_renderThread k) (k_renderMutex k) (k_sim k) (k_render k) (k_ctl k) (k_fault k).
Definition with_running (b : bool) (k : Skel) :=
  Build_Skel (k_initialized k) b (k_doInit k) (k_updateAvailable k) (k_renderThread k) (k_renderMutex k) (k_sim k) (k_render k) (k_ctl k) (k_fault k).
Definition with_doInit (b : bool) (k : Skel) :=
  Build_Skel (k_initialized k) (k_running k) b (k_updateAvailable k) (k_renderThread k) (k_renderMutex k) (k_sim k) (k_render k) (k_ctl k) (k_fault k).
Definition with_updateAvailable (b : bool) (k : Skel) :=
  Build_Skel (k_initialized k) (k_running k) (k_doInit k) b (k_renderThread k) (k_renderMutex k) (k_sim k) (k_render k) (k_ctl k) (k_fault k).
Definition with_renderThread (b : bool) (k : Skel) :=
  Build_Skel (k_initialized k) (k_running k) (k_doInit k) (k_updateAvailable k) b (k_renderMutex k) (k_sim k) (k_render k) (k_ctl k) (k_fault k).
Definition with_fault (k : Skel) :=
  Build_Skel (k_initialized k) (k_running k) (k_doInit k) (k_updateAvailable k) (k_renderThread k) (k_renderMutex k) (k_sim k) (k_render k) (k_ctl k) true.

Definition kstepRender (b : bool) (k : Skel) : option Skel :=
  match k_render k with
  | R_none | R_exited => None
  | R_WaitForInit_while =>
      if negb (k_initialized k) && k_running k
      then Some (with_render R_WaitForInit_wait k)
      else Some (with_render R_RenderThread_while k)
  | R_WaitForInit_wait =>
      if k_unlocked k then
        if k_doInit k || negb (k_running k)
        then Some (with_render R_WaitForInit_doInit (with_mutex (Some RenderT) k))
        else Some (with_render R_WaitForInit_blocked k)
      else None
  | R_WaitForInit_blocked => None
  | R_WaitForInit_doInit =>
      if k_doInit k
      then Some (with_render R_WaitForInit_notify (with_initialized true k))
      else Some (with_render R_WaitForInit_notify k)
  | R_WaitForInit_notify =>
      Some (with_render R_WaitForInit_while
              (with_mutex None (k_notify_one (with_updateAvailable false k))))
  | R_RenderThread_while =>
      if k_running k
      then Some (with_render R_RunOnce_wait k)
      else Some (with_render R_exited k)
  | R_RunOnce_wait =>
      if k_unlocked k then
        if negb (k_running k) || k_updateAvailable k
        then Some (with_render R_RunOnce_running (with_mutex (Some RenderT) k))
        else Some (with_render R_RunOnce_blocked k)
      else None
  | R_RunOnce_blocked => None
  | R_RunOnce_running =>
      if negb (k_running k)
      then Some (with_render R_RenderThread_while (with_mutex None k))
      else Some (with_render R_RunOnce_Update k)
  | R_RunOnce_Update => Some (with_render R_RunOnce_empty k)
  | R_RunOnce_empty =>
      if b then Some (with_render R_RunOnce_unlock k)
      else Some (with_render R_RunOnce_mask k)
  | R_RunOnce_mask => Some (with_render R_RunOnce_PreRender k)
  | R_RunOnce_PreRender =>
      if b then Some (with_render R_RunOnce_RunOnce k)
      else Some (with_fault k)
  | R_RunOnce_RunOnce => Some (with_render R_RunOnce_clear k)
  | R_RunOnce_clear => Some (with_render R_RunOnce_unlock k)
  | R_RunOnce_unlock =>
      Some (with_render R_RunOnce_notify
              (with_mutex None (with_updateAvailable false k)))
  | R_RunOnce_notify =>
      Some (with_render R_RenderThread_while (k_notify_one k))
  end.

Definition kstepSim (b : bool) (k : Skel) : option Skel :=
  match k_sim k with
  | K_idle => None
  | K_needInit rendering =>
      if negb (k_initialized k) && rendering
      then Some (with_sim K_doInit k)
      else Some (with_sim K_running k)
  | K_doInit =>
      if k_unlocked k
      then Some (with_sim K_running (k_notify_one (with_doInit true k)))
      else None
  | K_running =>
      if k_running k && k_initialized k
      then Some (with_sim K_UpdateFromECM k)
      else Some (with_sim K_idle k)
  | K_UpdateFromECM => Some (with_sim K_scan k)
  | K_scan => Some (with_sim K_due k)
  | K_due =>
      if b then Some (with_sim K_wait k) else Some (with_sim K_idle k)
  | K_wait =>
      if k_unlocked k then
        if negb (k_running k) || negb (k_updateAvailable k)
        then Some (with_sim K_stopped (with_mutex (Some SimT) k))
        else Some (with_sim K_blocked k)
      else None
  | K_blocked => None
  | K_stopped =>
      if negb (k_running k)
      then Some (with_sim K_idle (with_mutex None k))
      else Some (with_sim K_publish k)
  | K_publish =>
      Some (with_sim K_idle
              (with_mutex None (k_notify_one (with_updateAvailable true k))))
  end.

Definition kstepCtl (k : Skel) : option Skel :=
  match k_ctl k with
  | C_idle => None
  | C_Run_running => Some (with_ctl C_Run_thread (with_running true k))
  | C_Run_thread =>
      if k_renderThread k
      then Some (with_fault k)
      else Some (with_ctl C_idle
                   (with_render R_WaitForInit_while (with_renderThread true k)))
  | C_Stop_running =>
      if k_unlocked k
      then Some (with_ctl C_Stop_notify (with_running false k))
      else None
  | C_Stop_notify => Some (with_ctl C_Stop_join (k_notify_all k))
  | C_Stop_join =>
      if k_renderThread k then
        match k_render k with
        | R_exited => Some (with_ctl C_idle (with_renderThread false k))
        | _ => None
        end
      else Some (with_ctl C_idle k)
  end.

Definition k_waiting (t : Tid) (k : Skel) : bool :=
  match t with
  | RenderT => k_renderBlocked k
  | SimT => k_simBlocked k
  | CtlT => false
  end.

Definition kstep (l : KLabel) (k : Skel) : option Skel :=
  if k_fault k then None else
  match l with
  | KCallPostUpdate rendering =>
      match k_sim k with
      | K_idle => Some (with_sim (K_needInit rendering) k)
      | _ => None
      end
  | KCallRun =>
      match k_ctl k with
      | C_idle => Some (with_ctl C_Run_running k)
      | _ => None
      end
  | KCallStop =>
      match k_ctl k with
      | C_idle => Some (with_ctl C_Stop_running k)
      | _ => None
      end
  | KNext SimT b => kstepSim b k
  | KNext RenderT b => kstepRender b k
  | KNext CtlT _ => kstepCtl k
  | KSpuriousWakeup t => if k_waiting t k then Some (k_wake t k) else None
  | KCallback b => if b then Some k else Some (with_fault k)
  end.

Section Skeleton.
Context `{Collaborators}.

Definition simK (pc : SimPc) : SimK :=
  match pc with
  | S_idle => K_idle
  | S_needInit _ ecm => K_needInit (hasRenderingComponent ecm)
  | S_doInit _ _ => K_doInit
  | S_running _ _ => K_running
  | S_UpdateFromECM _ _ => K_UpdateFromECM
  | S_scan _ => K_scan
  | S_due _ _ => K_due
  | S_wait _ _ => K_wait
  | S_blocked _ _ => K_blocked
  | S_stopped _ _ => K_stopped
  | S_publish _ _ => K_publish
  end.

Definition skel (st : State) : Skel :=
  {| k_initialized := initialized (priv st);
     k_running := running (priv st);
     k_doInit := doInit (priv st);
     k_updateAvailable := updateAvailable (priv st);
     k_renderThread := renderThread (priv st);
     k_renderMutex := renderMutex (priv st);
     k_sim := simK (simPc st);
     k_render := renderPc st;
     k_ctl := ctlPc st;
     k_fault := match fault st with Some _ => true | None => false end |}.

(** How the data decides the test of the step. *)
Definition klabel (l : Label) (st : State) : KLabel :=
  match l with
  | CallPostUpdate _ ecm => KCallPostUpdate (hasRenderingComponent ecm)
  | CallRun => KCallRun
  | CallStop => KCallStop
  | Next SimT =>
      KNext SimT
        match simPc st with
        | S_due _ active =>
            negb (Nat.eqb (length active) 0)
            || (0 <? utilPendingSensors (renderUtil (priv st)))%Z
        | _ => false
        end
  | Next RenderT =>
      KNext RenderT
        match renderPc st with
        | R_RunOnce_empty =>
            match activeSensors (priv st) with [] => true | _ => false end
        | R_RunOnce_PreRender =>
            match scene (priv st) with Some _ => true | None => false end
        | _ => false
        end
  | Next CtlT => KNext CtlT false
  | SpuriousWakeup t => KSpuriousWakeup t
  | Callback sdf parentName =>
      KCallback
        match createdResult (CreateSensor sdf parentName (priv st)) with
        | inr _ => true
        | inl _ => false
        end
  end.

End Skeleton.

(** ** Checking the skeleton exhaustively *)

Definition all_bool (P : bool -> bool) : bool := P true && P false.
Definition all_Tid (P : Tid -> bool) : bool := P SimT && P RenderT && P CtlT.
Definition all_owner (P : option Tid -> bool) : bool :=
  P None && all_Tid (fun t => P (Some t)).
Definition all_SimK (P : SimK -> bool) : bool :=
  P K_idle && all_bool (fun b => P (K_needInit b)) && P K_doInit &&
  P K_running && P K_UpdateFromECM && P K_scan && P K_due && P K_wait &&
  P K_blocked && P K_stopped && P K_publish.
Definition all_RenderPc (P : RenderPc -> bool) : bool :=
  P R_none && P R_WaitForInit_while && P R_WaitForInit_wait &&
  P R_WaitForInit_blocked && P R_WaitForInit_doInit &&
  P R_WaitForInit_notify && P R_RenderThread_while && P R_RunOnce_wait &&
  P R_RunOnce_blocked && P R_RunOnce_running && P R_RunOnce_Update &&
  P R_RunOnce_empty && P R_RunOnce_mask && P R_RunOnce_PreRender &&
  P R_RunOnce_RunOnce && P R_RunOnce_clear && P R_RunOnce_unlock &&
  P R_RunOnce_notify && P R_exited.
Definition all_CtlPc (P : CtlPc -> bool) : bool :=
  P C_idle && P C_Run_running && P C_Run_thread && P C_Stop_running &&
  P C_Stop_notify && P C_Stop_join.
Definition all_Skel (P : Skel -> bool) : bool :=
  all_bool (fun a => all_bool (fun b => all_bool (fun c => all_bool (fun d =>
  all_bool (fun e => all_owner (fun m => all_SimK (fun s =>
  all_RenderPc (fun r => all_CtlPc (fun c' => all_bool (fun f =>
    P (Build_Skel a b c d e m s r c' f))))))))))).
Definition all_KLabel (P : KLabel -> bool) : bool :=
  all_bool (fun b => P (KCallPostUpdate b)) && P KCallRun && P KCallStop &&
  all_Tid (fun t => all_bool (fun b => P (KNext t b))) &&
  all_Tid (fun t => P (KSpuriousWakeup t)) &&
  all_bool (fun b => P (KCallback b)).

(** [inv] holds after every permitted step from a state where it holds. *)
Definition kpreserved (ok : KLabel -> Skel -> bool) (inv : Skel -> bool)
    : bool :=
  all_Skel (fun k =>
    if inv k then
      all_KLabel (fun l =>
        if ok l k then
          match kstep l k with
          | Some k' => inv k'
          | None => true
          end
        else true)
    else true).

Definition eqb_owner (a b : option Tid) : bool :=
  match a, b with
  | None, None | Some SimT, Some SimT | Some RenderT, Some RenderT
  | Some CtlT, Some CtlT => true
  | _, _ => false
  end.

Definition KSlocked (s : SimK) : bool :=
  match s with K_stopped | K_publish => true | _ => false end.
Definition KSinside (s : SimK) : bool :=
  match s with
  | K_UpdateFromECM | K_scan | K_due | K_wait | K_blocked | K_stopped
  | K_publish => true
  | _ => false
  end.

Definition kallowed (l : KLabel) (k : Skel) : bool :=
  match l with
  | KCallRun => match k_render k with R_none => true | _ => false end
  | _ => true
  end.

(** What every reachable state satisfies: who owns the mutex, which flags a
    program counter implies, and that nobody is left waiting once [Stop] has
    notified. *)
Definition kinv (k : Skel) : bool :=
  eqb_owner (k_renderMutex k)
    (if Rlocked (k_render k) then Some RenderT
     else if KSlocked (k_sim k) then Some SimT else None)
  && negb (Rlocked (k_render k) && KSlocked (k_sim k))
  && implb (negb (k_renderThread k)) (Rgone (k_render k))
  && implb (match k_render k with R_none => true | _ => false end)
       (negb (k_renderThread k))
  && implb (Rearly (k_render k)) (negb (k_initialized k))
  && implb (match k_render k with R_WaitForInit_notify => true | _ => false end)
       (negb (k_updateAvailable k))
  && implb (KSinside (k_sim k)) (k_initialized k)
  && implb (k_updateAvailable k) (k_initialized k)
  && implb (match k_sim k with K_stopped => true | _ => false end)
       (negb (k_running k && k_updateAvailable k))
  && implb (match k_sim k with K_publish => true | _ => false end)
       (k_running k && negb (k_updateAvailable k))
  && implb (Rpass (k_render k)) (k_running k && k_updateAvailable k)
  && implb (match k_render k with R_RunOnce_running => true | _ => false end)
       (negb (k_running k) || k_updateAvailable k)
  && implb (match k_ctl k with C_Run_running | C_Run_thread => true | _ => false end)
       (match k_render k with R_none => true | _ => false end)
  && implb (match k_ctl k with C_Stop_notify | C_Stop_join => true | _ => false end)
       (negb (k_running k))
  && implb (match k_ctl k with C_Stop_join => true | _ => false end)
       (negb (k_renderBlocked k) && negb (k_simBlocked k)).


(** *** Letting the threads run out *)

(** The rendering thread moves while it can, then the simulation thread,
    until neither can or the fuel is spent. *)
Fixpoint settle `{Collaborators} (fuel : nat) (st : State) : State :=
  match fuel with
  | O => st
  | S n =>
      match step (Next RenderT) st with
      | Some st' => settle n st'
      | None =>
          match step (Next SimT) st with
          | Some st' => settle n st'
          | None => st
          end
      end
  end.

(** The steps the rendering thread still has to take to leave its function
    once [running] is false; likewise for the simulation thread and
    [PostUpdate]. *)
Definition renderDistance (pc : RenderPc) : nat :=
  match pc with
  | R_none | R_exited => 0
  | R_RenderThread_while => 1
  | R_WaitForInit_while | R_RunOnce_running => 2
  | R_WaitForInit_notify | R_RunOnce_wait => 3
  | R_WaitForInit_doInit => 4
  | R_WaitForInit_wait => 5
  | _ => 6
  end.

Definition simDistance (pc : SimK) : nat :=
  match pc with
  | K_idle => 0
  | K_stopped => 1
  | K_wait => 2
  | K_due => 3
  | K_scan => 4
  | K_UpdateFromECM => 5
  | K_running => 6
  | K_doInit => 7
  | K_needInit _ => 8
  | _ => 9
  end.

Definition kdistance (k : Skel) : nat :=
  renderDistance (k_render k) + simDistance (k_sim k).

(** Shut down and woken: the invariant holds, [running] is false, nobody
    waits, the process is alive. *)
Definition kstopped (k : Skel) : bool :=
  kinv k && negb (k_running k) && negb (k_renderBlocked k) &&
  negb (k_simBlocked k) && negb (k_fault k).

Definition ksettled (k : Skel) : bool :=
  Rgone (k_render k) && match k_sim k with K_idle => true | _ => false end.

Definition kcloser (k : Skel) (r : option Skel) : option bool :=
  match r with
  | Some k' => Some (kstopped k' && (kdistance k' <? kdistance k)%nat)
  | None => None
  end.

(** From a stopped state the rendering thread can move, or else the
    simulation thread can, or else both are done; every such move keeps the
    state stopped and brings the end closer. *)
Definition kdraining (k : Skel) : bool :=
  if kstopped k then
    all_bool (fun b =>
      match kcloser k (kstep (KNext RenderT b) k) with
      | Some ok => ok
      | None =>
          all_bool (fun b' =>
            match kcloser k (kstep (KNext SimT b') k) with
            | Some ok => ok
            | None => ksettled k
            end)
      end)
  else true.

(** *** The case without rendering sensors *)

(** The steps of the skeleton that [quiet] permits. *)
Definition kquietly (l : KLabel) (k : Skel) : bool :=
  kallowed l k &&
  match l with
  | KCallPostUpdate rendering => negb rendering
  | KCallback _ => false
  | _ => true
  end.

(** The rendering thread is in [WaitForInit], waiting. *)
Definition RwaitingForInit (pc : RenderPc) : bool :=
  match pc with
  | R_WaitForInit_while | R_WaitForInit_wait | R_WaitForInit_blocked => true
  | _ => false
  end.

(** The rendering thread is in [RunOnce]. *)
Definition RinRunOnce (pc : RenderPc) : bool :=
  match pc with
  | R_RunOnce_wait | R_RunOnce_blocked | R_RunOnce_running
  | R_RunOnce_Update | R_RunOnce_empty | R_RunOnce_mask
  | R_RunOnce_PreRender | R_RunOnce_RunOnce | R_RunOnce_clear
  | R_RunOnce_unlock | R_RunOnce_notify => true
  | _ => false
  end.

(** What holds as long as no rendering sensor appears: nothing is
    initialised, nothing is requested, and the rendering thread is outside
    [RunOnce]; while the system runs it is still waiting in [WaitForInit]. *)
Definition kquiet (k : Skel) : bool :=
  kinv k && negb (k_initialized k) && negb (k_doInit k) &&
  negb (k_updateAvailable k) && negb (k_fault k) &&
  negb (RinRunOnce (k_render k)) &&
  match k_sim k with K_doInit | K_needInit true => false | _ => true end &&
  implb (k_running k)
    (RwaitingForInit (k_render k) ||
     match k_render k with R_none => true | _ => false end).

(** ** Properties of managers and of states *)

Section Stated.
Context `{Collaborators}.

(** The manager hands out, for an id, the sensor that carries this id. *)
Definition consistent (mgr : Manager) : Prop :=
  forall id x, mgrSensor mgr id = Some x -> Id x = id.

(** The invariant, fact by fact. *)
Record Facts (st : State) : Prop := {
  fact_mutex :
    renderMutex (priv st) =
      if Rlocked (renderPc st) then Some RenderT
      else if Slocked (simPc st) then Some SimT else None;
  fact_exclusion : Rlocked (renderPc st) && Slocked (simPc st) = false;
  fact_joined : renderThread (priv st) = false -> Rgone (renderPc st) = true;
  fact_none : renderPc st = R_none -> renderThread (priv st) = false;
  fact_early : Rearly (renderPc st) = true -> initialized (priv st) = false;
  fact_notify :
    renderPc st = R_WaitForInit_notify -> updateAvailable (priv st) = false;
  fact_inside : Sinside (simPc st) = true -> initialized (priv st) = true;
  fact_available :
    updateAvailable (priv st) = true -> initialized (priv st) = true;
  fact_stopped :
    forall t a, simPc st = S_stopped t a ->
    running (priv st) && updateAvailable (priv st) = false;
  fact_publish :
    forall t a, simPc st = S_publish t a ->
    running (priv st) = true /\ updateAvailable (priv st) = false;
  fact_pass :
    Rpass (renderPc st) = true ->
    running (priv st) = true /\ updateAvailable (priv st) = true;
  fact_claimed :
    renderPc st = R_RunOnce_running ->
    running (priv st) = false \/ updateAvailable (priv st) = true;
  fact_starting :
    ctlPc st = C_Run_running \/ ctlPc st = C_Run_thread ->
    renderPc st = R_none;
  fact_stopping :
    ctlPc st = C_Stop_notify \/ ctlPc st = C_Stop_join ->
    running (priv st) = false;
  fact_notified : ctlPc st = C_Stop_join -> waiters st = []
}.

End Stated.

(** ** A small instance of the collaborators, for running the model *)

Module Demo.

(** A manager that holds its sensors in a list and numbers them from 1.
    Kind 0 stands for a sensor that does not render (an altimeter, say);
    kind 1 for a kind the manager cannot build; every other kind gives a
    10 Hz rendering sensor that is due at once. *)
Definition lookup (m : list Sensor) (id : SensorId) : option Sensor :=
  find (fun s => (Id s =? id)%N) m.

Definition create (sdf : SdfSensor) (m : list Sensor)
    : SensorId * list Sensor :=
  match sdfType sdf with
  | KIND 1 => (NO_SENSOR, m)
  | ty =>
      let id := N.of_nat (S (length m)) in
      (id, m ++ [{| Id := id; Name := sdfName sdf;
                    isRendering :=
                      match ty with KIND 0 => false | _ => true end;
                    UpdateRate := 10; NextUpdateTime := 0 |}])
  end.

(** A render utility that is just its count of pending sensors: a step
    of the simulation that shows a rendering component adds one, [Update]
    creates them all. Simulation steps carry their time and whether a
    rendering component exists. *)
#[export] Instance collaborators : Collaborators := {|
  Manager := list Sensor;
  mgrCreateSensor := create;
  mgrSensor := lookup;
  mgrRunOnce := fun _ m => m;
  RenderUtil := Z;
  utilInit := fun u => u;
  utilScene := fun _ => Some 1%N;
  utilUpdate := fun _ => 0%Z;
  utilPendingSensors := fun u => u;
  UpdateInfo := Q;
  simTime := fun t => t;
  ECM := bool;
  HasComponentType := fun e _ => e;
  utilUpdateFromECM := fun _ e u => if e then (u + 1)%Z else u
|}.

Definition camera : SdfSensor := {| sdfType := KIND 2; sdfName := "camera" |}.
Definition altimeter : SdfSensor := {| sdfType := KIND 0; sdfName := "altimeter" |}.
Definition unbuildable : SdfSensor := {| sdfType := KIND 1; sdfName := "broken" |}.
Definition untyped : SdfSensor := {| sdfType := NONE; sdfName := "none" |}.

(** Sensor A of the scenario: 10 Hz, due at 0. *)
Definition sensorA : Sensor :=
  {| Id := 1; Name := "camera"; isRendering := true;
     UpdateRate := 10; NextUpdateTime := 0 |}.

Definition fresh : State := initial ([] : list Sensor) 0%Z.

(** The data after [Sensors::CreateSensor] made sensor A. *)
Definition withA : SensorsPrivate :=
  createdData (CreateSensor camera "model" (priv fresh)).

(** [Configure] starts the worker, the callback creates sensor A, a first
    step signals that initialisation is needed, the worker initialises and
    goes to sleep waiting for a request. *)
Definition startup : list Label :=
  [CallRun; Next CtlT; Next CtlT; Callback camera "model";
   CallPostUpdate 0 true; Next SimT; Next SimT; Next SimT] ++
  repeat (Next RenderT) 7.

Definition idling : State := default fresh (run allowed startup fresh).

(** A step at time 0 publishes the request for sensor A. *)
Definition publishing : list Label :=
  CallPostUpdate 0 true :: repeat (Next SimT) 8.

Definition pending : State := default fresh (run allowed publishing idling).

(** The next step, at time 0.05, finds sensor A due again (the pass has not
    run yet) and arrives at the gate. *)
Definition arriving : list Label :=
  CallPostUpdate (5 # 100) true :: repeat (Next SimT) 5.

Definition second : State := default fresh (run allowed arriving pending).



(** [Stop] while the worker idles: the worker is woken, leaves [RunOnce]
    and its loop, and is joined. *)
Definition stopping : list Label :=
  [CallStop; Next CtlT; Next CtlT] ++ repeat (Next RenderT) 3 ++ [Next CtlT].

Definition stopped : State := default fresh (run allowed stopping idling).



(** No rendering sensor: the worker goes to sleep in [WaitForInit], a step
    of the simulation passes by, then [Stop] stores [running = false] and
    notifies. *)
Definition calm : list Label :=
  [CallRun; Next CtlT; Next CtlT; Next RenderT; Next RenderT;
   CallPostUpdate 0 false; Next SimT; Next SimT;
   CallStop; Next CtlT; Next CtlT].

Definition calmed : State := default fresh (run quiet calm fresh).

End Demo.

(** ** More of the program, and what is stated about it *)

(** *** The scan, visit by visit *)

(** The test of lines 305-316 on the mask entry of [id]: the sensor is
    looked at when it has no entry or its deadline is not after [t]. *)
Definition unmasked (mask : gmap N Q) (t : Time) (id : SensorId) : bool :=
  match mask !! id with
  | Some deadline => Qle_bool deadline t
  | None => true
  end.

Section Selected.
Context `{Collaborators}.

(** The sensors one visit of the loop adds. *)
Definition selected (mgr : Manager) (t : Time) (mask : gmap N Q)
    (id : SensorId) : list Sensor :=
  if unmasked mask t id then
    match dynamic_cast (mgrSensor mgr id) with
    | Some r => if Qle_bool (NextUpdateTime r) t then [r] else []
    | None => []
    end
  else [].

End Selected.

(** *** Counting calls *)

(** The calls of [renderUtil.Init()] and of [renderUtil.UpdateFromECM]. *)
Definition inits (ops : list Op) : nat :=
  length (List.filter (fun o => match o with OpInit => true | _ => false end) ops).

Definition ecms (ops : list Op) : nat :=
  length (List.filter
            (fun o => match o with OpUpdateFromECM _ => true | _ => false end)
            ops).

(** *** Who sleeps *)

(** [Stop] has stored [running = false] and is about to notify. *)
Definition kstopNotice (k : Skel) : bool :=
  match k_ctl k with C_Stop_notify => true | _ => false end.

(** A thread inside [renderCv.wait] has a false predicate, or the notify
    that follows the store which made it true is the next statement of the
    storing thread; the two threads never sleep at the same time, the
    rendering thread has not exited while [running] is true, and the
    simulation thread sleeps only while there is a rendering thread. *)
Definition kawake (k : Skel) : bool :=
  kinv k &&
  implb (match k_render k with R_WaitForInit_blocked => true | _ => false end)
    ((negb (k_doInit k) && k_running k) || kstopNotice k) &&
  implb (match k_render k with R_RunOnce_blocked => true | _ => false end)
    ((k_running k && negb (k_updateAvailable k)) || kstopNotice k) &&
  implb (k_simBlocked k)
    ((k_running k && k_updateAvailable k) || kstopNotice k ||
     match k_render k with R_RunOnce_notify => true | _ => false end) &&
  negb (k_renderBlocked k && k_simBlocked k) &&
  implb (match k_render k with R_exited => true | _ => false end)
    (negb (k_running k)) &&
  implb (k_simBlocked k && negb (kstopNotice k)) (negb (Rgone (k_render k))).

(** *** Passes owed, threads started *)

(** The rendering thread has called [renderUtil.Update()] for the request
    it is working on. *)
Definition Rcounted (pc : RenderPc) : bool :=
  match pc with
  | R_RunOnce_empty | R_RunOnce_mask | R_RunOnce_PreRender
  | R_RunOnce_RunOnce | R_RunOnce_clear | R_RunOnce_unlock => true
  | _ => false
  end.

Section Owed.
Context `{Collaborators}.

(** The simulation thread has called [renderUtil.UpdateFromECM] in the
    call of [PostUpdate] it is in. *)
Definition Sinflight (pc : SimPc) : bool :=
  match pc with
  | S_scan _ | S_due _ _ | S_wait _ _ | S_blocked _ _ | S_stopped _ _
  | S_publish _ _ => true
  | _ => false
  end.

(** The passes that may still come without another call of
    [UpdateFromECM]: one for a published request whose pass has not begun,
    one for a call of [PostUpdate] that is past its [UpdateFromECM]. *)
Definition owed (st : State) : nat :=
  (if updateAvailable (priv st) && negb (Rcounted (renderPc st)) then 1 else 0) +
  (if Sinflight (simPc st) then 1 else 0).

End Owed.

(** A rendering thread was started. *)
Definition Rstarted (pc : RenderPc) : bool :=
  match pc with R_none => false | _ => true end.

Section Counted.
Context `{Collaborators}.

(** [renderUtil.Init()] was called exactly when [initialized] says so, and
    before it nothing was rendered. *)
Definition initFirst (st : State) : Prop :=
  inits (log st) = (if initialized (priv st) then 1 else 0)%nat /\
  (initialized (priv st) = false ->
   scene (priv st) = None /\ passes (log st) = 0%nat /\
   ecms (log st) = 0%nat).

(** One thread at most was constructed, and [joinable()] tells whether it
    is still to be joined. *)
Definition balanced (st : State) : Prop :=
  spawns (log st) = (if Rstarted (renderPc st) then 1 else 0)%nat /\
  (joins (log st) + (if renderThread (priv st) then 1 else 0))%nat =
    spawns (log st).

End Counted.

(** *** Functions and schedules *)

(** The rendering thread alone until [SensorsPrivate::WaitForInit] returns
    (line 141); [None] when it goes to sleep in [renderCv.wait]. *)
Definition WaitForInit `{Collaborators} (st : State) : option State :=
  alone RenderT 6 st.

(** The owner of [renderMutex] moves until it has released it. *)
Fixpoint release `{Collaborators} (fuel : nat) (st : State) : State :=
  match fuel with
  | O => st
  | S n =>
      match renderMutex (priv st) with
      | Some t =>
          match step (Next t) st with
          | Some st' => release n st'
          | None => st
          end
      | None => st
      end
  end.

(** A call of [Stop] that is given the processor: the owner of the lock
    releases it, [Stop] stores and notifies, the two other threads run out,
    and [Stop] joins. *)
Definition shutdown `{Collaborators} (st : State) : option State :=
  match exec [CallStop; Next CtlT; Next CtlT] (release 8 st) with
  | Some st1 => step (Next CtlT) (settle 16 st1)
  | None => None
  end.

(** The statements the owner of the lock has to execute to release it. *)
Definition renderLockDistance (pc : RenderPc) : nat :=
  match pc with
  | R_RunOnce_running => 8
  | R_RunOnce_Update => 7
  | R_RunOnce_empty => 6
  | R_RunOnce_mask => 5
  | R_RunOnce_PreRender => 4
  | R_RunOnce_RunOnce => 3
  | R_RunOnce_clear | R_WaitForInit_doInit => 2
  | R_RunOnce_unlock | R_WaitForInit_notify => 1
  | _ => 0
  end.

Definition simLockDistance (pc : SimK) : nat :=
  match pc with K_stopped => 2 | K_publish => 1 | _ => 0 end.

Definition klockDistance (k : Skel) : nat :=
  renderLockDistance (k_render k) + simLockDistance (k_sim k).

(** In a state of the invariant the owner of the lock can move, and its
    move brings the release closer or ends the process; when nothing is
    left to execute the lock is free. *)
Definition kreleasing (k : Skel) : bool :=
  if kinv k && negb (k_fault k) then
    match k_renderMutex k with
    | None => true
    | Some t =>
        all_bool (fun b =>
          match kstep (KNext t b) k with
          | Some k' => k_fault k' || (klockDistance k' <? klockDistance k)%nat
          | None => false
          end)
    end &&
    implb (klockDistance k =? 0)%nat (k_unlocked k) &&
    (klockDistance k <=? 8)%nat
  else true.

(** The rendering thread moves until the published request is taken and
    [updateAvailable] is cleared. *)
Fixpoint serve `{Collaborators} (fuel : nat) (st : State) : State :=
  match fuel with
  | O => st
  | S n =>
      if updateAvailable (priv st) then
        match step (Next RenderT) st with
        | Some st' => serve n st'
        | None => st
        end
      else st
  end.

(** The statements the rendering thread has to execute to finish the pass
    for a published request. *)
Definition serveDistance (pc : RenderPc) : nat :=
  match pc with
  | R_RunOnce_unlock => 1
  | R_RunOnce_clear => 2
  | R_RunOnce_RunOnce => 3
  | R_RunOnce_PreRender => 4
  | R_RunOnce_mask => 5
  | R_RunOnce_empty => 6
  | R_RunOnce_Update => 7
  | R_RunOnce_running => 8
  | R_RunOnce_wait => 9
  | R_RenderThread_while => 10
  | _ => 11
  end.

(** Whether the pass for the published request is still to begin. *)
Definition kowed (k : Skel) : nat :=
  if k_updateAvailable k && negb (Rcounted (k_render k)) then 1 else 0.

(** With a request published and the system running, the rendering thread
    can move; its move clears the flag, or ends the process, or brings the
    end of the pass closer, and it calls [renderUtil.Update()] exactly when
    it begins the pass. *)
Definition kserving (k : Skel) : bool :=
  if kawake k && k_running k && k_updateAvailable k && negb (k_fault k) then
    all_bool (fun b =>
      match kstep (KNext RenderT b) k with
      | Some k' =>
          (kowed k =? kowed k' +
             match k_render k with R_RunOnce_Update => 1 | _ => 0 end)%nat &&
          (k_fault k' ||
           (negb (k_updateAvailable k') &&
            match k_render k' with R_RunOnce_notify => true | _ => false end) ||
           (k_updateAvailable k' && k_running k' &&
            (serveDistance (k_render k') <? serveDistance (k_render k))%nat))
      | None => false
      end)
  else true.

(** *** More states of the small instance *)

Module Scenes.

(** [Configure] has started the worker, which has not moved yet. *)
Definition started : State :=
  default Demo.fresh
    (@run Demo.collaborators allowed [CallRun; Next CtlT; Next CtlT]
       Demo.fresh).


(** The worker has entered the loop of [WaitForInit], a step of the
    simulation has asked for initialisation, and [Stop] has stored
    [running = false] and notified before the worker took the lock. *)
Definition lateInit : State :=
  default Demo.fresh
    (@run Demo.collaborators allowed
       [Next RenderT; @CallPostUpdate Demo.collaborators 0 true;
        Next SimT; Next SimT; Next SimT;
        CallStop; Next CtlT; Next CtlT]
       started).

(** The worker has claimed the request for sensor A and is about to call
    [renderUtil.Update()]. *)
Definition rendering : State :=
  default Demo.fresh
    (@run Demo.collaborators allowed [Next RenderT; Next RenderT]
       Demo.pending).

(** The second step has gone to sleep at the gate. *)
Definition gated : State :=
  default Demo.fresh (@run Demo.collaborators allowed [Next SimT] Demo.second).

(** The idle worker wakes without a notify. *)
Definition woken : State :=
  default Demo.fresh
    (@run Demo.collaborators allowed [SpuriousWakeup RenderT] Demo.idling).

(** The collaborators of [Demo] with a render utility that has no scene to
    give. *)
Definition sceneless : Collaborators := {|
  Manager := list Sensor;
  mgrCreateSensor := Demo.create;
  mgrSensor := Demo.lookup;
  mgrRunOnce := fun _ m => m;
  RenderUtil := Z;
  utilInit := fun u => u;
  utilScene := fun _ => None;
  utilUpdate := fun _ => 0%Z;
  utilPendingSensors := fun u => u;
  UpdateInfo := Q;
  simTime := fun t => t;
  ECM := bool;
  HasComponentType := fun e _ => e;
  utilUpdateFromECM := fun _ e u => if e then (u + 1)%Z else u
|}.

Definition dark : @State sceneless := @initial sceneless [] 0%Z.

(** With them: the worker has initialised, sensor A exists, and a step has
    published the request for it. *)
Definition blind : @State sceneless :=
  default dark
    (@run sceneless allowed
       ([CallRun; Next CtlT; Next CtlT; Callback Demo.camera "model";
         @CallPostUpdate sceneless 0 true; Next SimT; Next SimT; Next SimT] ++
        repeat (Next RenderT) 7 ++
        @CallPostUpdate sceneless 0 true :: repeat (Next SimT) 8)
       dark).

End Scenes.

(** * Properties *)

(** ** The registry *)

Lemma elem_of_set_insert (x y : N) (l : list N) :
  y ∈ set_insert x l <-> y = x \/ y ∈ l.
Proof.
  induction l as [|z l IH]; simpl.
  - rewrite list_elem_of_singleton, elem_of_nil. tauto.
  - destruct (N.ltb_spec x z) as [Hlt|Hge].
    + rewrite elem_of_cons. tauto.
    + destruct (N.eqb_spec x z) as [->|Hne].
      * rewrite elem_of_cons. tauto.
      * rewrite !elem_of_cons, IH. tauto.
Qed.

(** [set_insert] keeps the list what a [std::set] iterates over: strictly
    ascending. *)
Lemma set_insert_sorted (x : N) (l : list N) :
  StronglySorted N.lt l -> StronglySorted N.lt (set_insert x l).
Proof.
  induction 1 as [|z l Hs IH Hall]; simpl.
  - repeat constructor.
  - destruct (N.ltb_spec x z) as [Hlt|Hge].
    + constructor; [by constructor|].
      constructor; [done|].
      eapply Forall_impl; [exact Hall|]. intros; simpl in *; lia.
    + destruct (N.eqb_spec x z) as [->|Hne].
      * by constructor.
      * constructor; [done|].
        apply Forall_forall. intros y Hy%elem_of_set_insert.
        destruct Hy as [->|Hy]; [lia|].
        rewrite Forall_forall in Hall. by apply Hall.
Qed.

Section CreateSensorFacts.
Context `{Collaborators}.

(** C7. [Sensors::CreateSensor] on a descriptor of type [NONE] reports the
    error, returns the empty string and leaves the manager and the registry
    as they were; when the manager builds a valid rendering sensor, the call
    inserts its id into [sensorIds], keeps the manager's new state, where the
    id looks the sensor up, reports no error and returns the sensor's
    name. *)
Theorem CreateSensor_contract (sdf : SdfSensor) (parentName : string)
    (d : SensorsPrivate) :
  (sdfType sdf = NONE ->
   CreateSensor sdf parentName d =
     {| createdData := d; createdOps := [OpErr msgTypeNone];
        createdResult := inr "" |}) /\
  (forall sensorId mgr s,
     sdfType sdf <> NONE ->
     mgrCreateSensor sdf (sensorManager d) = (sensorId, mgr) ->
     mgrSensor mgr sensorId = Some s ->
     isRendering s = true ->
     Id s <> NO_SENSOR ->
     let c := CreateSensor sdf parentName d in
     createdResult c = inr (Name s) /\
     sensorId ∈ sensorIds (createdData c) /\
     (forall id, id ∈ sensorIds d -> id ∈ sensorIds (createdData c)) /\
     mgrSensor (sensorManager (createdData c)) sensorId = Some s /\
     (forall msg, OpErr msg ∉ createdOps c)).
Proof.
  split.
  - intros Hty. unfold CreateSensor. by rewrite Hty.
  - intros sensorId mgr s Hty Hcreate Hlook Hrs Hid. unfold CreateSensor.
    destruct (sdfType sdf) eqn:Ety; [done|]. simpl.
    rewrite Hcreate, Hlook. simpl. rewrite Hrs.
    destruct (Id s) as [|p] eqn:EId; [by destruct Hid|].
    simpl. repeat split.
    + apply elem_of_set_insert. by left.
    + intros id Hin. apply elem_of_set_insert. by right.
    + done.
    + intros msg Hin. simpl in Hin. rewrite !elem_of_cons in Hin.
      destruct Hin as [Hin|[Hin|[Hin|Hin]]]; try discriminate.
      by apply elem_of_nil in Hin.
Qed.

(** C10. After the [NONE] guard, [Sensors::CreateSensor] inserts the id the
    manager returned into [sensorIds] whatever the manager built, and calls
    [SetScene] through the downcast pointer: the call ends without a null
    dereference exactly when the manager's sensor exists and is a rendering
    sensor. The failure branch only logs: with no sensor behind the id the
    error is reported and the dereference still happens. *)
Theorem CreateSensor_null_dereference (sdf : SdfSensor) (parentName : string)
    (d : SensorsPrivate) (sensorId : SensorId) (mgr : Manager) :
  sdfType sdf <> NONE ->
  mgrCreateSensor sdf (sensorManager d) = (sensorId, mgr) ->
  let c := CreateSensor sdf parentName d in
  sensorIds (createdData c) = set_insert sensorId (sensorIds d) /\
  (createdResult c = inl NullDereference <->
   dynamic_cast (mgrSensor mgr sensorId) = None) /\
  (createdResult c <> inl NullDereference <->
   exists s, mgrSensor mgr sensorId = Some s /\ isRendering s = true) /\
  (mgrSensor mgr sensorId = None ->
   createdOps c = [OpErr (msgFailed (sdfName sdf))] /\
   createdResult c = inl NullDereference).
Proof.
  intros Hty Hcreate. unfold CreateSensor.
  destruct (sdfType sdf) eqn:Ety; [done|]. simpl. rewrite Hcreate.
  destruct (mgrSensor mgr sensorId) as [s|] eqn:Hlook; simpl;
    [destruct (isRendering s) eqn:Hrs; simpl|];
    split_and!; try done; try (split; [done | intros; done]).
  - split; [intros _; by exists s | done].
  - split; [intros Hne; by destruct Hne | intros (s' & Hs' & Hr); congruence].
  - split; [intros Hne; by destruct Hne | intros (s' & Hs' & _); discriminate].
Qed.

End CreateSensorFacts.

(** ** The update-rate mask *)

Lemma Qle_bool_false (x y : Q) : Qle_bool x y = false <-> y < x.
Proof.
  split.
  - intros Hb. apply Qnot_le_lt. intros Hle%Qle_bool_iff. congruence.
  - intros Hlt. destruct (Qle_bool x y) eqn:Hb; [|done].
    apply Qle_bool_iff in Hb. by apply Qlt_not_le in Hlt.
Qed.



Section MaskFacts.
Context `{Collaborators}.

Lemma scanFrom_cons (mgr : Manager) (t : Time) (id : SensorId)
    (ids : list SensorId) (acc : gmap N Q * list Sensor) :
  scanFrom mgr t (id :: ids) acc = scanFrom mgr t ids (scanSensor mgr t id acc).
Proof. reflexivity. Qed.

(** What one iteration of the scan does to the mask and to the active
    set. *)
Lemma scanSensor_spec (mgr : Manager) (t : Time) (id : SensorId)
    (mask : gmap N Q) (active : list Sensor) :
  exists mask1 active1,
    scanSensor mgr t id (mask, active) = (mask1, active1) /\
    (forall j, j <> id -> mask1 !! j = mask !! j) /\
    ((exists deadline, mask !! id = Some deadline /\
        Qle_bool deadline t = false /\ mask1 = mask /\ active1 = active) \/
     ((mask !! id = None \/
       exists deadline, mask !! id = Some deadline /\
                        Qle_bool deadline t = true) /\
      mask1 !! id = None /\
      match dynamic_cast (mgrSensor mgr id) with
      | Some r =>
          if Qle_bool (NextUpdateTime r) t
          then active1 = active ++ [r] else active1 = active
      | None => active1 = active
      end)).
Proof.
  unfold scanSensor.
  destruct (mask !! id) as [deadline|] eqn:Hm.
  - destruct (Qle_bool deadline t) eqn:Hd.
    + destruct (dynamic_cast (mgrSensor mgr id)) as [r|];
        [destruct (Qle_bool (NextUpdateTime r) t)|];
        eexists _, _; (split; [reflexivity|]);
        (split; [intros j Hj; by rewrite lookup_delete_ne|]);
        right; (split; [right; by exists deadline|]);
        (split; [by rewrite lookup_delete_eq | done]).
    + eexists _, _. split; [reflexivity|]. split; [done|].
      left. by exists deadline.
  - destruct (dynamic_cast (mgrSensor mgr id)) as [r|];
      [destruct (Qle_bool (NextUpdateTime r) t)|];
      eexists _, _; (split; [reflexivity|]); (split; [done|]);
      right; (split; [by left|]); done.
Qed.

Lemma dynamic_cast_Some (o : option Sensor) (r : Sensor) :
  dynamic_cast o = Some r <-> o = Some r /\ isRendering r = true.
Proof.
  unfold dynamic_cast. destruct o as [x|].
  - destruct (isRendering x) eqn:Hx; split.
    + by intros [= <-].
    + by intros [[= <-] _].
    + done.
    + intros [[= <-] Hr]. congruence.
  - split; [done | by intros [? _]].
Qed.




End MaskFacts.

Section MaskTheorems.
Context `{Collaborators}.

(** Over a registry without repeated ids and a consistent manager the scan
    never selects two sensors with one id. *)
Lemma scanFrom_ids (mgr : Manager) (t : Time) (ids : list SensorId)
    (mask : gmap N Q) (active : list Sensor) :
  consistent mgr ->
  forall mask' active',
    scanFrom mgr t ids (mask, active) = (mask', active') ->
    exists added, active' = active ++ added /\ map Id added `sublist_of` ids.
Proof.
  intros Hc. revert mask active.
  induction ids as [|id ids IH]; intros mask active mask' active' Hscan.
  - simpl in Hscan. injection Hscan as <- <-. exists []. by rewrite app_nil_r.
  - rewrite scanFrom_cons in Hscan.
    destruct (scanSensor_spec mgr t id mask active)
      as (mask1 & active1 & Heq & _ & Hcase).
    rewrite Heq in Hscan.
    destruct (IH mask1 active1 mask' active' Hscan) as (added & -> & Hsub).
    destruct Hcase as [(_ & _ & _ & _ & ->)|(_ & _ & Hact)].
    { exists added. split; [done|]. by apply sublist_cons. }
    destruct (dynamic_cast (mgrSensor mgr id)) as [r|] eqn:Hdc;
      [destruct (Qle_bool (NextUpdateTime r) t)|]; subst active1;
      try (exists added; split; [done|]; by apply sublist_cons).
    exists (r :: added). split; [by rewrite <- app_assoc|].
    apply dynamic_cast_Some in Hdc as [Hdc _]. simpl.
    rewrite (Hc _ _ Hdc). by apply sublist_skip.
Qed.

Lemma scan_NoDup (mgr : Manager) (t : Time) (ids : list SensorId)
    (mask : gmap N Q) :
  consistent mgr -> NoDup ids ->
  NoDup (map Id (snd (scan mgr t ids mask))).
Proof.
  intros Hc Hnd. unfold scan.
  destruct (scanFrom mgr t ids (mask, [])) as [mask' active'] eqn:Hscan.
  destruct (scanFrom_ids mgr t ids mask [] Hc mask' active' Hscan)
    as (added & -> & Hsub).
  simpl. by eapply sublist_NoDup.
Qed.



End MaskTheorems.

(** ** The skeleton simulates the program *)

Section SkeletonFacts.
Context `{Collaborators}.

Create Rewrite HintDb skel.

Lemma skel_wake (t : Tid) (st : State) : skel (wake t st) = k_wake t (skel st).
Proof.
  destruct st as [d sp rp cp lg ft], t; unfold wake, k_wake, skel; simpl.
  - by destruct sp.
  - by destruct rp.
  - done.
Qed.

Lemma skel_notify_one (st : State) :
  skel (notify_one st) = k_notify_one (skel st).
Proof.
  destruct st as [d sp rp cp lg ft].
  unfold notify_one, k_notify_one, waiters, renderBlocked, simBlocked,
    k_renderBlocked, k_simBlocked; simpl.
  destruct rp; simpl; try done; destruct sp; done.
Qed.

Lemma skel_notify_all (st : State) :
  skel (notify_all st) = k_notify_all (skel st).
Proof. unfold notify_all, k_notify_all. by rewrite !skel_wake. Qed.

Lemma skel_set_simPc pc st : skel (set_simPc pc st) = with_sim (simK pc) (skel st).
Proof. reflexivity. Qed.
Lemma skel_set_renderPc pc st : skel (set_renderPc pc st) = with_render pc (skel st).
Proof. reflexivity. Qed.
Lemma skel_set_ctlPc pc st : skel (set_ctlPc pc st) = with_ctl pc (skel st).
Proof. reflexivity. Qed.
Lemma skel_emit ops st : skel (emit ops st) = skel st.
Proof. reflexivity. Qed.
Lemma skel_set_fault f st : skel (set_fault f st) = with_fault (skel st).
Proof. reflexivity. Qed.
Lemma skel_lock t st : skel (lock t st) = with_mutex (Some t) (skel st).
Proof. reflexivity. Qed.
Lemma skel_unlock st : skel (unlock st) = with_mutex None (skel st).
Proof. reflexivity. Qed.
Lemma skel_upd_initialized b st :
  skel (upd (set_initialized b) st) = with_initialized b (skel st).
Proof. reflexivity. Qed.
Lemma skel_upd_running b st :
  skel (upd (set_running b) st) = with_running b (skel st).
Proof. reflexivity. Qed.
Lemma skel_upd_doInit b st :
  skel (upd (set_doInit b) st) = with_doInit b (skel st).
Proof. reflexivity. Qed.
Lemma skel_upd_updateAvailable b st :
  skel (upd (set_updateAvailable b) st) = with_updateAvailable b (skel st).
Proof. reflexivity. Qed.
Lemma skel_upd_renderThread b st :
  skel (upd (set_renderThread b) st) = with_renderThread b (skel st).
Proof. reflexivity. Qed.
Lemma skel_upd_sensorManager v st : skel (upd (set_sensorManager v) st) = skel st.
Proof. reflexivity. Qed.
Lemma skel_upd_renderUtil v st : skel (upd (set_renderUtil v) st) = skel st.
Proof. reflexivity. Qed.
Lemma skel_upd_scene v st : skel (upd (set_scene v) st) = skel st.
Proof. reflexivity. Qed.
Lemma skel_upd_updateTime v st : skel (upd (set_updateTime v) st) = skel st.
Proof. reflexivity. Qed.
Lemma skel_upd_activeSensors v st : skel (upd (set_activeSensors v) st) = skel st.
Proof. reflexivity. Qed.
Lemma skel_upd_sensorMask v st : skel (upd (set_sensorMask v) st) = skel st.
Proof. reflexivity. Qed.

Lemma skel_Callback sdf parentName st :
  skel (set_priv (createdData (CreateSensor sdf parentName (priv st)))
          (emit (createdOps (CreateSensor sdf parentName (priv st))) st)) =
  skel st.
Proof.
  unfold CreateSensor. destruct (SensorType_is_NONE _); [done|].
  destruct (mgrCreateSensor _ _) as [sensorId mgr].
  by destruct (dynamic_cast _).
Qed.

#[local] Hint Rewrite skel_notify_one skel_notify_all skel_wake skel_set_simPc
  skel_set_renderPc skel_set_ctlPc skel_emit skel_set_fault skel_lock
  skel_unlock skel_upd_initialized skel_upd_running skel_upd_doInit
  skel_upd_updateAvailable skel_upd_renderThread skel_upd_sensorManager
  skel_upd_renderUtil skel_upd_scene skel_upd_updateTime
  skel_upd_activeSensors skel_upd_sensorMask : skel.

Ltac skel_cases :=
  repeat match goal with
  | |- context [if ?b then _ else _] =>
      match type of b with bool => destruct b eqn:? end
  end;
  simpl; autorewrite with skel; try reflexivity.

Lemma skel_step (l : Label) (st : State) :
  skel <$> step l st = kstep (klabel l st) (skel st).
Proof.
  unfold step, kstep.
  replace (k_fault (skel st))
    with (match fault st with Some _ => true | None => false end) by done.
  destruct (fault st) as [f|] eqn:Hf; [done|].
  replace (k_sim (skel st)) with (simK (simPc st)) by done.
  replace (k_ctl (skel st)) with (ctlPc st) by done.
  destruct l as [info ecm| | |[ | | ]|[ | | ]|sdf pn]; cbv beta iota; cbn [klabel].
  - by destruct (simPc st).
  - by destruct (ctlPc st).
  - by destruct (ctlPc st).
  - unfold stepSim, kstepSim.
    replace (k_sim (skel st)) with (simK (simPc st)) by done.
    replace (k_unlocked (skel st)) with (unlocked st) by done.
    destruct (simPc st); simpl; skel_cases.
  - unfold stepRender, kstepRender.
    replace (k_render (skel st)) with (renderPc st) by done.
    replace (k_unlocked (skel st)) with (unlocked st) by done.
    destruct (renderPc st); simpl;
      try destruct (scene (priv st)); try destruct (activeSensors (priv st));
      skel_cases.
  - unfold stepCtl, kstepCtl.
    replace (k_ctl (skel st)) with (ctlPc st) by done.
    replace (k_unlocked (skel st)) with (unlocked st) by done.
    replace (k_render (skel st)) with (renderPc st) by done.
    destruct (ctlPc st); simpl; skel_cases.
    destruct (renderPc st); simpl; autorewrite with skel; reflexivity.
  - unfold waiting, k_waiting.
    replace (k_simBlocked (skel st)) with (simBlocked st)
      by (unfold simBlocked, k_simBlocked; simpl; by destruct (simPc st)).
    destruct (simBlocked st); [|done]. by rewrite <- skel_wake.
  - unfold waiting, k_waiting.
    replace (k_renderBlocked (skel st)) with (renderBlocked st) by done.
    destruct (renderBlocked st); [|done]. by rewrite <- skel_wake.
  - done.
  - unfold stepCallback.
    destruct (createdResult _) eqn:Hres; simpl; autorewrite with skel;
      by rewrite skel_Callback.
Qed.

End SkeletonFacts.

(** ** Exhaustive checks of the skeleton *)

Ltac all_spec := 
  repeat match goal with
  | H : _ && _ = true |- _ => apply andb_prop in H; destruct H
  end.

Lemma all_bool_spec P : all_bool P = true -> forall b, P b = true.
Proof. unfold all_bool. intros HP b. all_spec. by destruct b. Qed.
Lemma all_Tid_spec P : all_Tid P = true -> forall t, P t = true.
Proof. unfold all_Tid. intros HP t. all_spec. by destruct t. Qed.
Lemma all_owner_spec P : all_owner P = true -> forall m, P m = true.
Proof.
  unfold all_owner. intros HP m. all_spec. destruct m as [t|]; [|done].
  by apply (all_Tid_spec (fun t => P (Some t))).
Qed.
Lemma all_SimK_spec P : all_SimK P = true -> forall s, P s = true.
Proof.
  unfold all_SimK. intros HP s. all_spec. destruct s; try done.
  by apply (all_bool_spec (fun b => P (K_needInit b))).
Qed.
Lemma all_RenderPc_spec P : all_RenderPc P = true -> forall r, P r = true.
Proof. unfold all_RenderPc. intros HP r. all_spec. by destruct r. Qed.
Lemma all_CtlPc_spec P : all_CtlPc P = true -> forall c, P c = true.
Proof. unfold all_CtlPc. intros HP c. all_spec. by destruct c. Qed.
Lemma all_Skel_spec P : all_Skel P = true -> forall k, P k = true.
Proof.
  unfold all_Skel. intros HP [a b c d e m s r c' f].
  revert f. apply all_bool_spec. revert c'. apply all_CtlPc_spec.
  revert r. apply all_RenderPc_spec. revert s. apply all_SimK_spec.
  revert m. apply all_owner_spec. revert e. apply all_bool_spec.
  revert d. apply all_bool_spec. revert c. apply all_bool_spec.
  revert b. apply all_bool_spec. revert a. by apply all_bool_spec.
Qed.
Lemma all_KLabel_spec P : all_KLabel P = true -> forall l, P l = true.
Proof.
  unfold all_KLabel. intros HP l. all_spec. destruct l as [b| | |t b|t|b]; try done.
  - by apply (all_bool_spec (fun b => P (KCallPostUpdate b))).
  - revert b. apply all_bool_spec. revert t.
    by apply (all_Tid_spec (fun t => all_bool (fun b => P (KNext t b)))).
  - by apply (all_Tid_spec (fun t => P (KSpuriousWakeup t))).
  - by apply (all_bool_spec (fun b => P (KCallback b))).
Qed.

Lemma kpreserved_spec ok inv :
  kpreserved ok inv = true ->
  forall l k k', inv k = true -> ok l k = true -> kstep l k = Some k' ->
  inv k' = true.
Proof.
  intros Hp l k k' Hinv Hok Hstep. unfold kpreserved in Hp.
  pose proof (all_Skel_spec _ Hp k) as Hk. simpl in Hk. rewrite Hinv in Hk.
  pose proof (all_KLabel_spec _ Hk l) as Hl. simpl in Hl.
  by rewrite Hok, Hstep in Hl.
Qed.


Lemma kinv_preserved : kpreserved kallowed kinv = true.
Proof. vm_compute. reflexivity. Qed.

Section Reachable.
Context `{Collaborators}.

(** A property of the skeleton that holds initially and is preserved by the
    permitted steps of the skeleton holds in every reachable state. *)
Lemma reachableBy_skel (ok : Label -> State -> bool)
    (kok : KLabel -> Skel -> bool) (inv : Skel -> bool) :
  (forall l st, ok l st = true -> kok (klabel l st) (skel st) = true) ->
  (forall mgr util, inv (skel (initial mgr util)) = true) ->
  kpreserved kok inv = true ->
  forall st, reachableBy ok st -> inv (skel st) = true.
Proof.
  intros Hok Hinit Hpres st Hreach.
  induction Hreach as [mgr util|st l st' _ IH Hl Hstep]; [by apply Hinit|].
  eapply kpreserved_spec; [exact Hpres|exact IH|by apply Hok|].
  rewrite <- skel_step, Hstep. reflexivity.
Qed.

Lemma allowed_kallowed (l : Label) (st : State) :
  allowed l st = true -> kallowed (klabel l st) (skel st) = true.
Proof. by destruct l as [| | |[]| |]. Qed.

Lemma reachable_kinv (st : State) : reachable st -> kinv (skel st) = true.
Proof.
  apply (reachableBy_skel allowed kallowed kinv).
  - exact allowed_kallowed.
  - reflexivity.
  - exact kinv_preserved.
Qed.

Lemma reachableBy_weaken (ok ok' : Label -> State -> bool) (st : State) :
  (forall l st, ok l st = true -> ok' l st = true) ->
  reachableBy ok st -> reachableBy ok' st.
Proof.
  intros Hsub. induction 1 as [mgr util|st l st' _ IH Hl Hstep].
  - constructor.
  - econstructor; [exact IH|by apply Hsub|exact Hstep].
Qed.

End Reachable.

(** ** The invariant of the reachable states *)

Section Facts.
Context `{Collaborators}.

Lemma KSlocked_simK (pc : SimPc) : KSlocked (simK pc) = Slocked pc.
Proof. by destruct pc. Qed.
Lemma KSinside_simK (pc : SimPc) : KSinside (simK pc) = Sinside pc.
Proof. by destruct pc. Qed.
Lemma eqb_owner_eq (a b : option Tid) : eqb_owner a b = true -> a = b.
Proof. by destruct a as [[]|], b as [[]|]. Qed.

Lemma kinv_Facts (st : State) : kinv (skel st) = true -> Facts st.
Proof.
  intros Hk. unfold kinv in Hk.
  repeat (apply andb_prop in Hk as [Hk ?]).
  unfold skel, k_renderBlocked, k_simBlocked in *. simpl in *.
  rewrite ?KSlocked_simK, ?KSinside_simK in *.
  constructor.
  - by apply eqb_owner_eq.
  - by destruct (Rlocked _), (Slocked _).
  - intros E. rewrite E in *. done.
  - intros E. rewrite E in *. by destruct (renderThread _).
  - intros E. rewrite E in *. by destruct (initialized _).
  - intros E. rewrite E in *. by destruct (updateAvailable _).
  - intros E. rewrite E in *. done.
  - intros E. rewrite E in *. done.
  - intros t a E. rewrite E in *. by destruct (running _), (updateAvailable _).
  - intros t a E. rewrite E in *. by destruct (running _), (updateAvailable _).
  - intros E. rewrite E in *. by destruct (running _), (updateAvailable _).
  - intros E. rewrite E in *. destruct (running _), (updateAvailable _); auto.
  - intros [E | E]; rewrite E in *; by destruct (renderPc st).
  - intros [E | E]; rewrite E in *; by destruct (running _).
  - intros E. rewrite E in *. unfold waiters, renderBlocked, simBlocked.
    by destruct (renderPc st), (simPc st).
Qed.

Lemma reachable_Facts (st : State) : reachable st -> Facts st.
Proof. intros Hk%reachable_kinv. by apply kinv_Facts. Qed.

End Facts.

(** ** What the state transformers leave alone *)

Section Frame.
Context `{Collaborators}.

Lemma priv_set_simPc pc st : priv (set_simPc pc st) = priv st.
Proof. reflexivity. Qed.
Lemma priv_set_renderPc pc st : priv (set_renderPc pc st) = priv st.
Proof. reflexivity. Qed.
Lemma priv_set_ctlPc pc st : priv (set_ctlPc pc st) = priv st.
Proof. reflexivity. Qed.
Lemma priv_emit ops st : priv (emit ops st) = priv st.
Proof. reflexivity. Qed.
Lemma priv_set_fault f st : priv (set_fault f st) = priv st.
Proof. reflexivity. Qed.
Lemma priv_wake t st : priv (wake t st) = priv st.
Proof.
  destruct t; unfold wake;
    [by destruct (simPc st)|by destruct (renderPc st)|done].
Qed.
Lemma priv_notify_one st : priv (notify_one st) = priv st.
Proof. unfold notify_one. destruct (waiters st); [done|apply priv_wake]. Qed.
Lemma priv_notify_all st : priv (notify_all st) = priv st.
Proof. unfold notify_all. by rewrite !priv_wake. Qed.
Lemma priv_upd f st : priv (upd f st) = f (priv st).
Proof. reflexivity. Qed.
Lemma priv_lock t st : priv (lock t st) = set_renderMutex (Some t) (priv st).
Proof. reflexivity. Qed.
Lemma priv_unlock st : priv (unlock st) = set_renderMutex None (priv st).
Proof. reflexivity. Qed.

Lemma log_set_simPc pc st : log (set_simPc pc st) = log st.
Proof. reflexivity. Qed.
Lemma log_set_renderPc pc st : log (set_renderPc pc st) = log st.
Proof. reflexivity. Qed.
Lemma log_set_ctlPc pc st : log (set_ctlPc pc st) = log st.
Proof. reflexivity. Qed.
Lemma log_set_fault f st : log (set_fault f st) = log st.
Proof. reflexivity. Qed.
Lemma log_emit ops st : log (emit ops st) = log st ++ ops.
Proof. reflexivity. Qed.
Lemma log_upd f st : log (upd f st) = log st.
Proof. reflexivity. Qed.
Lemma log_lock t st : log (lock t st) = log st.
Proof. reflexivity. Qed.
Lemma log_unlock st : log (unlock st) = log st.
Proof. reflexivity. Qed.
Lemma log_wake t st : log (wake t st) = log st.
Proof.
  destruct t; unfold wake;
    [by destruct (simPc st)|by destruct (renderPc st)|done].
Qed.
Lemma log_notify_one st : log (notify_one st) = log st.
Proof. unfold notify_one. destruct (waiters st); [done|apply log_wake]. Qed.
Lemma log_notify_all st : log (notify_all st) = log st.
Proof. unfold notify_all. by rewrite !log_wake. Qed.

Lemma fault_set_simPc pc st : fault (set_simPc pc st) = fault st.
Proof. reflexivity. Qed.
Lemma fault_set_renderPc pc st : fault (set_renderPc pc st) = fault st.
Proof. reflexivity. Qed.
Lemma fault_set_ctlPc pc st : fault (set_ctlPc pc st) = fault st.
Proof. reflexivity. Qed.
Lemma fault_emit ops st : fault (emit ops st) = fault st.
Proof. reflexivity. Qed.
Lemma fault_upd f st : fault (upd f st) = fault st.
Proof. reflexivity. Qed.
Lemma fault_lock t st : fault (lock t st) = fault st.
Proof. reflexivity. Qed.
Lemma fault_unlock st : fault (unlock st) = fault st.
Proof. reflexivity. Qed.
Lemma fault_set_fault f st : fault (set_fault f st) = Some f.
Proof. reflexivity. Qed.
Lemma fault_wake t st : fault (wake t st) = fault st.
Proof.
  destruct t; unfold wake;
    [by destruct (simPc st)|by destruct (renderPc st)|done].
Qed.
Lemma fault_notify_one st : fault (notify_one st) = fault st.
Proof. unfold notify_one. destruct (waiters st); [done|apply fault_wake]. Qed.
Lemma fault_notify_all st : fault (notify_all st) = fault st.
Proof. unfold notify_all. by rewrite !fault_wake. Qed.

Lemma renderPc_set_renderPc pc st : renderPc (set_renderPc pc st) = pc.
Proof. reflexivity. Qed.
Lemma renderPc_set_simPc pc st : renderPc (set_simPc pc st) = renderPc st.
Proof. reflexivity. Qed.
Lemma renderPc_set_ctlPc pc st : renderPc (set_ctlPc pc st) = renderPc st.
Proof. reflexivity. Qed.
Lemma renderPc_emit ops st : renderPc (emit ops st) = renderPc st.
Proof. reflexivity. Qed.
Lemma renderPc_upd f st : renderPc (upd f st) = renderPc st.
Proof. reflexivity. Qed.
Lemma renderPc_lock t st : renderPc (lock t st) = renderPc st.
Proof. reflexivity. Qed.
Lemma renderPc_unlock st : renderPc (unlock st) = renderPc st.
Proof. reflexivity. Qed.

Lemma simPc_set_simPc pc st : simPc (set_simPc pc st) = pc.
Proof. reflexivity. Qed.
Lemma simPc_set_renderPc pc st : simPc (set_renderPc pc st) = simPc st.
Proof. reflexivity. Qed.
Lemma simPc_set_ctlPc pc st : simPc (set_ctlPc pc st) = simPc st.
Proof. reflexivity. Qed.
Lemma simPc_emit ops st : simPc (emit ops st) = simPc st.
Proof. reflexivity. Qed.
Lemma simPc_upd f st : simPc (upd f st) = simPc st.
Proof. reflexivity. Qed.
Lemma simPc_lock t st : simPc (lock t st) = simPc st.
Proof. reflexivity. Qed.
Lemma simPc_unlock st : simPc (unlock st) = simPc st.
Proof. reflexivity. Qed.

Lemma ctlPc_set_ctlPc pc st : ctlPc (set_ctlPc pc st) = pc.
Proof. reflexivity. Qed.
Lemma ctlPc_set_simPc pc st : ctlPc (set_simPc pc st) = ctlPc st.
Proof. reflexivity. Qed.
Lemma ctlPc_set_renderPc pc st : ctlPc (set_renderPc pc st) = ctlPc st.
Proof. reflexivity. Qed.
Lemma ctlPc_emit ops st : ctlPc (emit ops st) = ctlPc st.
Proof. reflexivity. Qed.
Lemma ctlPc_upd f st : ctlPc (upd f st) = ctlPc st.
Proof. reflexivity. Qed.
Lemma ctlPc_lock t st : ctlPc (lock t st) = ctlPc st.
Proof. reflexivity. Qed.
Lemma ctlPc_unlock st : ctlPc (unlock st) = ctlPc st.
Proof. reflexivity. Qed.
Lemma ctlPc_wake t st : ctlPc (wake t st) = ctlPc st.
Proof.
  destruct t; unfold wake;
    [by destruct (simPc st)|by destruct (renderPc st)|done].
Qed.
Lemma ctlPc_notify_one st : ctlPc (notify_one st) = ctlPc st.
Proof. unfold notify_one. destruct (waiters st); [done|apply ctlPc_wake]. Qed.
Lemma ctlPc_notify_all st : ctlPc (notify_all st) = ctlPc st.
Proof. unfold notify_all. by rewrite !ctlPc_wake. Qed.

End Frame.

Create Rewrite HintDb frame.
#[export] Hint Rewrite @priv_set_simPc @priv_set_renderPc @priv_set_ctlPc
  @priv_emit @priv_set_fault @priv_wake @priv_notify_one @priv_notify_all
  @priv_upd @priv_lock @priv_unlock
  @log_set_simPc @log_set_renderPc @log_set_ctlPc @log_set_fault @log_emit
  @log_upd @log_lock @log_unlock @log_wake @log_notify_one @log_notify_all
  @fault_set_simPc @fault_set_renderPc @fault_set_ctlPc @fault_emit
  @fault_upd @fault_lock @fault_unlock @fault_set_fault @fault_wake
  @fault_notify_one
  @fault_notify_all
  @renderPc_set_renderPc @renderPc_set_simPc @renderPc_set_ctlPc
  @renderPc_emit @renderPc_upd @renderPc_lock @renderPc_unlock
  @simPc_set_simPc @simPc_set_renderPc @simPc_set_ctlPc @simPc_emit
  @simPc_upd @simPc_lock @simPc_unlock
  @ctlPc_set_ctlPc @ctlPc_set_simPc @ctlPc_set_renderPc @ctlPc_emit
  @ctlPc_upd @ctlPc_lock @ctlPc_unlock @ctlPc_wake @ctlPc_notify_one
  @ctlPc_notify_all : frame.

(** Case analysis on a step: which thread moved, from where, and how the
    tests came out. *)
Ltac step_inv Hstep :=
  unfold step in Hstep;
  match type of Hstep with
  | context [fault ?st] => destruct (fault st) eqn:?; [discriminate|]
  end;
  try match type of Hstep with
  | context [match ?l with CallPostUpdate _ _ => _ | _ => _ end] =>
      destruct l as [? ?| | |[ | | ]|[ | | ]|? ?]
  end;
  cbv beta iota in Hstep;
  unfold stepSim, stepRender, stepCtl, waiting in Hstep;
  repeat match type of Hstep with
  | context [match simPc ?st with _ => _ end] => destruct (simPc st) eqn:?
  | context [match renderPc ?st with _ => _ end] => destruct (renderPc st) eqn:?
  | context [match ctlPc ?st with _ => _ end] => destruct (ctlPc st) eqn:?
  | context [if ?b then _ else _] =>
      match type of b with bool => destruct b eqn:? end
  | context [match scene ?d with _ => _ end] => destruct (scene d) eqn:?
  | context [match activeSensors ?d with _ => _ end] =>
      destruct (activeSensors d) eqn:?
  end;
  try discriminate;
  try (injection Hstep as <-).

(** ** The render gate *)

Section Gate.
Context `{Collaborators}.

Lemma CreateSensor_frame sdf parentName d :
  let d' := createdData (CreateSensor sdf parentName d) in
  initialized d' = initialized d /\ renderUtil d' = renderUtil d /\
  scene d' = scene d /\ running d' = running d /\ doInit d' = doInit d /\
  updateAvailable d' = updateAvailable d /\
  renderThread d' = renderThread d /\ renderMutex d' = renderMutex d /\
  updateTime d' = updateTime d /\ activeSensors d' = activeSensors d /\
  sensorMask d' = sensorMask d.
Proof.
  unfold CreateSensor. destruct (SensorType_is_NONE _); [done|].
  destruct (mgrCreateSensor _ _) as [sensorId mgr].
  by destruct (dynamic_cast _).
Qed.

Lemma request_Callback sdf parentName st :
  request (stepCallback sdf parentName st) = request st.
Proof.
  unfold stepCallback, request.
  destruct (CreateSensor_frame sdf parentName (priv st))
    as (_ & _ & _ & _ & _ & Hu & _ & _ & Ht & Ha & _).
  destruct (createdResult _); simpl; by rewrite Hu, Ht, Ha.
Qed.

Lemma request_wake t st : request (wake t st) = request st.
Proof. unfold request. by rewrite priv_wake. Qed.

(** C1. While a render request is pending ([updateAvailable] is set), no
    step of the simulation thread, of the controlling thread or of the
    environment changes the request: its sensors, its time and the flag stay
    as published, so a second publish never overwrites it. Only the
    rendering thread clears the flag, by the statement that ends its pass
    (line 192), and nothing changes the time of a pending request. A
    simulation thread that arrives at the gate while the request is pending
    and the system is running goes to sleep inside [renderCv.wait] and
    leaves the data alone. The request is one slot (three fields), so a
    second one cannot be outstanding beside it. *)
Theorem publish_single_flight (l : Label) (st st' : State) :
  reachable st -> allowed l st = true -> step l st = Some st' ->
  updateAvailable (priv st) = true ->
  (l <> Next RenderT -> request st' = request st) /\
  (updateAvailable (priv st') = false ->
   l = Next RenderT /\ renderPc st = R_RunOnce_unlock) /\
  updateTime (priv st') = updateTime (priv st) /\
  (forall t a, l = Next SimT -> simPc st = S_wait t a ->
   running (priv st) = true ->
   st' = set_simPc (S_blocked t a) st).
Proof.
  intros Hr Hal Hstep Hua.
  pose proof (reachable_Facts st Hr) as F.
  assert (forall t a, simPc st <> S_publish t a) as Hnp.
  { intros t a Hpc. destruct (fact_publish _ F _ _ Hpc). congruence. }
  assert (renderPc st <> R_WaitForInit_notify) as Hnn.
  { intros Hpc. pose proof (fact_notify _ F Hpc). congruence. }
  assert (request st' = request st \/
          (l = Next RenderT /\
           ((renderPc st = R_RunOnce_clear /\
             request st' = ([], updateTime (priv st), true)) \/
            (renderPc st = R_RunOnce_unlock /\
             request st' =
               (activeSensors (priv st), updateTime (priv st), false)))))
    as Hcases.
  { step_inv Hstep;
      try (left; by destruct (simPc st));
      try (left; by destruct (renderPc st));
      try (left; by apply request_Callback);
      try (exfalso; by eapply Hnp); try (exfalso; by apply Hnn);
      unfold request; autorewrite with frame; simpl; rewrite ?Hua;
      try (by left); right; (split; [done|]); by auto. }
  split_and!.
  - intros Hl. destruct Hcases as [Heq|[-> _]]; [done|by destruct Hl].
  - intros Hf. destruct Hcases as [Heq|[-> [[_ Heq]|[Hpc Heq]]]].
    + unfold request in Heq. congruence.
    + unfold request in Heq. congruence.
    + done.
  - destruct Hcases as [Heq|[_ [[_ Heq]|[_ Heq]]]];
      unfold request in Heq; congruence.
  - intros t a -> Hpc Hrun. unfold step in Hstep.
    destruct (fault st); [discriminate|]. cbv beta iota in Hstep.
    unfold stepSim in Hstep. rewrite Hpc, Hrun, Hua in Hstep. simpl in Hstep.
    destruct (unlocked st); [|discriminate]. by injection Hstep as <-.
Qed.

End Gate.

Lemma reachableBy_run `{Collaborators} (ok : Label -> State -> bool)
    (ls : list Label) (st st' : State) :
  reachableBy ok st -> run ok ls st = Some st' -> reachableBy ok st'.
Proof.
  revert st. induction ls as [|l ls IH]; intros st Hr Hrun; simpl in Hrun.
  - by injection Hrun as <-.
  - destruct (ok l st) eqn:Hok; [|discriminate].
    destruct (step l st) as [st1|] eqn:Hstep; [|discriminate].
    eapply IH; [|exact Hrun]. by econstructor.
Qed.

Lemma Demo_second_reachable : reachable Demo.second.
Proof.
  apply (reachableBy_run allowed
           (Demo.startup ++ Demo.publishing ++ Demo.arriving) Demo.fresh).
  - constructor.
  - vm_compute. reflexivity.
Qed.

Lemma publish_single_flight_witness :
  updateAvailable (priv Demo.second) = true /\
  request (set_simPc (S_blocked (5 # 100) [Demo.sensorA]) Demo.second) =
    ([Demo.sensorA], 0, true).
Proof.
  split; [reflexivity|].
  destruct (publish_single_flight (Next SimT) Demo.second
              (set_simPc (S_blocked (5 # 100) [Demo.sensorA]) Demo.second))
    as (Hsame & _).
  - exact Demo_second_reachable.
  - reflexivity.
  - vm_compute. reflexivity.
  - reflexivity.
  - rewrite Hsame; [reflexivity|discriminate].
Defined.

(** ** Executing one thread alone *)

Section Alone.
Context `{Collaborators}.

Lemma alone_return (t : Tid) (fuel : nat) (st st1 : State) :
  step (Next t) st = Some st1 -> finished t st1 = true ->
  alone t (S fuel) st = Some st1.
Proof. intros Hstep Hfin. simpl. by rewrite Hstep, Hfin. Qed.

Lemma alone_continue (t : Tid) (fuel : nat) (st st1 : State)
    (r : option State) :
  step (Next t) st = Some st1 -> finished t st1 = false ->
  alone t fuel st1 = r -> alone t (S fuel) st = r.
Proof. intros Hstep Hfin <-. simpl. by rewrite Hstep, Hfin. Qed.

Lemma step_sim (st : State) :
  fault st = None -> step (Next SimT) st = stepSim st.
Proof. intros Hf. unfold step. by rewrite Hf. Qed.

Lemma step_render (st : State) :
  fault st = None -> step (Next RenderT) st = stepRender st.
Proof. intros Hf. unfold step. by rewrite Hf. Qed.

Lemma step_ctl (st : State) :
  fault st = None -> step (Next CtlT) st = stepCtl st.
Proof. intros Hf. unfold step. by rewrite Hf. Qed.

Lemma unlocked_None (st : State) :
  unlocked st = true -> renderMutex (priv st) = None.
Proof. unfold unlocked. by destruct (renderMutex (priv st)). Qed.

End Alone.

Ltac rewrite_hyps :=
  repeat match goal with
  | H : _ = _ |- _ => rewrite H
  end.

(** Computes the fields of updated records, and nothing else. *)
Ltac fields :=
  cbn [priv simPc renderPc ctlPc log fault
       sensorManager initialized renderUtil sensorIds scene running doInit
       updateAvailable renderThread renderMutex updateTime activeSensors
       sensorMask
       set_sensorManager set_initialized set_renderUtil set_sensorIds
       set_scene set_running set_doInit set_updateAvailable set_renderThread
       set_renderMutex set_updateTime set_activeSensors set_sensorMask
       negb andb orb].

(** Solves [step (Next t) st = Some ?st'] when the hypotheses decide every
    test of the step. *)
Ltac solve_step :=
  first [ rewrite step_sim by (autorewrite with frame; assumption);
          unfold stepSim
        | rewrite step_render by (autorewrite with frame; assumption);
          unfold stepRender
        | rewrite step_ctl by (autorewrite with frame; assumption);
          unfold stepCtl ];
  autorewrite with frame; rewrite_hyps; cbv beta iota zeta;
  unfold unlocked; autorewrite with frame; fields; rewrite_hyps;
  rewrite ?andb_false_r, ?andb_true_r, ?orb_false_r, ?orb_true_r; fields;
  reflexivity.

Ltac solve_finished :=
  unfold finished; autorewrite with frame; rewrite_hyps; reflexivity.

Ltac alone_step :=
  first [ eapply alone_return; [solve_step | solve_finished]
        | eapply alone_continue; [solve_step | solve_finished | ] ].

(** ** One rendering pass *)

Section Pass.
Context `{Collaborators}.

#[local] Opaque maskActive maskOps.

(** C2, as the code has it. A call of [RunOnce] that claims a request
    first synchronises the scene ([renderUtil.Update()]). With an empty
    active set it does nothing else: no pre-render, no publish, no mask
    update. With a non-empty active set it then updates the mask of every
    sensor of the request, in the order of the request, then pre-renders the
    scene once, then calls [sensorManager.RunOnce] with the time of the
    request, then empties the active set. In both cases it ends by clearing
    [updateAvailable] and releasing the lock. *)
Theorem RunOnce_pass_order (st : State) :
  fault st = None -> renderPc st = R_RunOnce_wait -> unlocked st = true ->
  running (priv st) = true -> updateAvailable (priv st) = true ->
  let T := updateTime (priv st) in
  let active := activeSensors (priv st) in
  (active = [] ->
   exists st', RunOnce st = Some st' /\
     log st' = log st ++ [OpUpdate] /\
     sensorMask (priv st') = sensorMask (priv st) /\
     sensorManager (priv st') = sensorManager (priv st) /\
     updateAvailable (priv st') = false /\ unlocked st' = true /\
     fault st' = None) /\
  (active <> [] -> forall sc, scene (priv st) = Some sc ->
   exists st', RunOnce st = Some st' /\
     log st' =
       log st ++ [OpUpdate] ++ maskOps T active ++
       [OpPreRender sc; OpSensorsRunOnce T] /\
     sensorMask (priv st') = maskActive T active (sensorMask (priv st)) /\
     sensorManager (priv st') = mgrRunOnce T (sensorManager (priv st)) /\
     activeSensors (priv st') = [] /\
     updateAvailable (priv st') = false /\ unlocked st' = true /\
     fault st' = None).
Proof.
  intros Hf Hpc Hu Hrun Hua T active.
  pose proof (unlocked_None st Hu) as Hm.
  split.
  - intros Hact. subst active. eexists. split.
    + unfold RunOnce. do 6 alone_step.
    + unfold unlocked. autorewrite with frame. cbn.
      split_and!; try reflexivity. assumption.
  - intros Hact sc Hsc. subst active T.
    destruct (activeSensors (priv st)) as [|s0 rest] eqn:Ha; [done|].
    eexists. split.
    + unfold RunOnce. do 10 alone_step.
    + unfold unlocked. autorewrite with frame. cbn.
      rewrite <- ?app_assoc. split_and!; try reflexivity. assumption.
Qed.

End Pass.

Lemma Demo_pending_run :
  run allowed (Demo.startup ++ Demo.publishing) Demo.fresh =
    Some Demo.pending.
Proof. vm_compute. reflexivity. Qed.

(** C2, as the specification words it, fails on the request for sensor A:
    the mask entry is written before the scene is pre-rendered and before the
    sensors publish. *)
Lemma RunOnce_pass_order_counterexample :
  exists st',
    RunOnce Demo.pending = Some st' /\
    log st' =
      log Demo.pending ++
      [OpUpdate; OpMask 1 (0 + (9 # 10) / 10); OpPreRender 1;
       OpSensorsRunOnce 0] /\
    log st' <> log Demo.pending ++ specPassOps 1 0 [Demo.sensorA].
Proof.
  destruct (RunOnce Demo.pending) as [st'|] eqn:Hrun;
    [|vm_compute in Hrun; discriminate].
  exists st'. split; [reflexivity|].
  assert (log st' =
          log Demo.pending ++
          [OpUpdate; OpMask 1 (0 + (9 # 10) / 10); OpPreRender 1;
           OpSensorsRunOnce 0]) as Hlog.
  { vm_compute in Hrun. injection Hrun as <-. vm_compute. reflexivity. }
  split; [exact Hlog|].
  rewrite Hlog. intros Heq%app_inv_head. discriminate.
Qed.

Lemma RunOnce_pass_order_witness :
  exists st', RunOnce Demo.pending = Some st' /\
    sensorMask (priv st') !! 1%N = Some (0 + (9 # 10) / 10) /\
    updateAvailable (priv st') = false.
Proof.
  destruct (RunOnce_pass_order Demo.pending) as [_ Hpass];
    try reflexivity.
  destruct (Hpass ltac:(discriminate) 1%N eq_refl)
    as (st' & Hrun & _ & Hmask & _ & _ & Hua & _).
  exists st'. split; [exact Hrun|]. split; [|exact Hua].
  rewrite Hmask. reflexivity.
Defined.

(** ** One simulation step *)

Section Step.
Context `{Collaborators}.

#[local] Opaque scan.

Lemma PostUpdate_call (info : UpdateInfo) (ecm : ECM) (st : State)
    (r : option State) :
  fault st = None -> simPc st = S_idle ->
  alone SimT 12 (set_simPc (S_needInit info ecm) st) = r ->
  PostUpdate info ecm st = r.
Proof. intros Hf Hpc <-. unfold PostUpdate, step. by rewrite Hf, Hpc. Qed.


End Step.



(** ** Starting and stopping *)

Section Lifecycle.
Context `{Collaborators}.

Lemma Run_call (st : State) (r : option State) :
  fault st = None -> ctlPc st = C_idle ->
  alone CtlT 4 (set_ctlPc C_Run_running st) = r -> Run st = r.
Proof. intros Hf Hpc <-. unfold Run, step. by rewrite Hf, Hpc. Qed.

Lemma Stop_call (st : State) (r : option State) :
  fault st = None -> ctlPc st = C_idle ->
  alone CtlT 4 (set_ctlPc C_Stop_running st) = r -> Stop st = r.
Proof. intros Hf Hpc <-. unfold Stop, step. by rewrite Hf, Hpc. Qed.

(** C6, as the code has it. [Run] has no guard. Called while the thread
    object is joinable (a worker was started and not joined), it stores
    [running = true], constructs a second thread, and the move-assignment
    onto the joinable [renderThread] ends the process through
    [std::terminate()]. Called otherwise, it starts the worker. *)
Theorem Run_unguarded (st : State) :
  fault st = None -> ctlPc st = C_idle ->
  exists st', Run st = Some st' /\
    log st' = log st ++ [OpSpawn] /\ running (priv st') = true /\
    if renderThread (priv st)
    then fault st' = Some StdTerminate /\ renderPc st' = renderPc st
    else fault st' = None /\ renderPc st' = R_WaitForInit_while /\
         renderThread (priv st') = true.
Proof.
  intros Hf Hpc. destruct (renderThread (priv st)) eqn:Ht.
  - eexists. split; [|split; [|split]].
    + apply Run_call; [done|done|]. do 2 alone_step.
    + autorewrite with frame. reflexivity.
    + autorewrite with frame. reflexivity.
    + autorewrite with frame. split; reflexivity.
  - eexists. split; [|split; [|split]].
    + apply Run_call; [done|done|]. do 2 alone_step.
    + autorewrite with frame. reflexivity.
    + autorewrite with frame. reflexivity.
    + autorewrite with frame. split_and!; try reflexivity. assumption.
Qed.

(** C9. [Stop], called when the thread object is not joinable (the worker
    was joined by an earlier [Stop], or never started), stores
    [running = false], notifies, skips the join and returns: it reports no
    error and logs nothing, in particular no second join. *)
Theorem Stop_idempotent (st : State) :
  fault st = None -> ctlPc st = C_idle -> unlocked st = true ->
  renderThread (priv st) = false ->
  exists st', Stop st = Some st' /\
    fault st' = None /\ log st' = log st /\
    joins (log st') = joins (log st) /\
    running (priv st') = false /\ renderThread (priv st') = false /\
    ctlPc st' = C_idle.
Proof.
  intros Hf Hpc Hu Ht. pose proof (unlocked_None st Hu) as Hm.
  eexists. split.
  - apply Stop_call; [done|done|]. do 3 alone_step.
  - autorewrite with frame. cbn. split_and!; try reflexivity; assumption.
Qed.

End Lifecycle.

(** C6, as the specification words it, fails on the running system: the
    second [Run] is not turned away, it constructs a second thread. *)
Lemma Run_unguarded_counterexample :
  renderThread (priv Demo.idling) = true /\
  spawns (log Demo.idling) = 1%nat /\
  exists st',
    Run Demo.idling = Some st' /\ spawns (log st') = 2%nat /\
    fault st' = Some StdTerminate.
Proof.
  split; [reflexivity|]. split; [reflexivity|].
  destruct (Run Demo.idling) as [st'|] eqn:Hrun;
    [|vm_compute in Hrun; discriminate].
  exists st'. split; [reflexivity|].
  vm_compute in Hrun. injection Hrun as <-. split; reflexivity.
Qed.

Lemma Run_unguarded_witness :
  exists st', Run Demo.idling = Some st' /\ fault st' = Some StdTerminate.
Proof.
  destruct (Run_unguarded Demo.idling) as (st' & Hrun & _ & _ & Hf & _);
    try reflexivity.
  exists st'. split; [exact Hrun|exact Hf].
Defined.

Lemma Stop_idempotent_witness :
  joins (log Demo.stopped) = 1%nat /\
  exists st', Stop Demo.stopped = Some st' /\ joins (log st') = 1%nat /\
    fault st' = None.
Proof.
  split; [reflexivity|].
  destruct (Stop_idempotent Demo.stopped)
    as (st' & Hrun & Hf & _ & Hj & _); try reflexivity.
  exists st'. split; [exact Hrun|]. split; [|exact Hf].
  rewrite Hj. reflexivity.
Defined.

(** ** Shutdown *)

Lemma kdraining_all : all_Skel kdraining = true.
Proof. vm_compute. reflexivity. Qed.

Lemma passes_app (a b : list Op) : passes (a ++ b) = (passes a + passes b)%nat.
Proof. unfold passes. by rewrite List.filter_app, length_app. Qed.

Lemma passes_maskOps (t : Time) (active : list Sensor) :
  passes (maskOps t active) = 0%nat.
Proof. by induction active. Qed.

Section Shutdown.
Context `{Collaborators}.

Lemma passes_createdOps sdf parentName d :
  passes (createdOps (CreateSensor sdf parentName d)) = 0%nat.
Proof.
  unfold CreateSensor. destruct (SensorType_is_NONE _); [done|].
  destruct (mgrCreateSensor _ _) as [sensorId mgr].
  destruct (dynamic_cast _);
    match goal with
    | |- context [if ?b then [OpErr _] else []] => by destruct b
    end.
Qed.

Lemma log_stepCallback sdf parentName st :
  log (stepCallback sdf parentName st) =
  log st ++ createdOps (CreateSensor sdf parentName (priv st)).
Proof. unfold stepCallback. by destruct (createdResult _). Qed.

(** A pass begins with the call of [renderUtil.Update()], which only the
    step of line 158 makes. *)
Lemma passes_step (l : Label) (st st' : State) :
  step l st = Some st' ->
  passes (log st') =
    (passes (log st) +
     match l, renderPc st with
     | Next RenderT, R_RunOnce_Update => 1
     | _, _ => 0
     end)%nat.
Proof.
  intros Hstep.
  destruct l as [info ecm| | |t|t|sdf pn].
  6:{ unfold step in Hstep. destruct (fault st); [discriminate|].
      injection Hstep as <-.
      rewrite log_stepCallback, passes_app, passes_createdOps. lia. }
  all: try destruct t.
  all: step_inv Hstep; autorewrite with frame;
    rewrite ?passes_app, ?passes_maskOps; try (simpl; lia);
    try (unfold passes; simpl; lia).
  - destruct (simPc st); simpl; lia.
  - destruct (renderPc st); simpl; lia.
Qed.

(** While [running] is false, a step of the simulation thread or of the
    rendering thread leaves the request as it is. *)
Lemma request_stopped (t : Tid) (st st' : State) :
  kinv (skel st) = true -> running (priv st) = false ->
  step (Next t) st = Some st' -> t <> CtlT ->
  request st' = request st.
Proof.
  intros F%kinv_Facts Hrun Hstep Ht.
  assert (Rpass (renderPc st) = false) as Hnp.
  { destruct (Rpass (renderPc st)) eqn:Hp; [|done].
    destruct (fact_pass _ F Hp). congruence. }
  destruct t; [| |done].
  - step_inv Hstep; unfold request; autorewrite with frame; fields;
      try reflexivity.
    match goal with
    | Hpc : simPc st = S_publish _ _ |- _ =>
        destruct (fact_publish _ F _ _ Hpc); congruence
    end.
  - step_inv Hstep;
      try match goal with
      | Hpc : renderPc st = _ |- _ => rewrite Hpc in Hnp; discriminate
      end;
      unfold request; autorewrite with frame; fields; try reflexivity.
    match goal with
    | Hpc : renderPc st = R_WaitForInit_notify |- _ =>
        by rewrite (fact_notify _ F Hpc)
    end.
Qed.

Lemma ctlPc_step (t : Tid) (st st' : State) :
  t <> CtlT -> step (Next t) st = Some st' -> ctlPc st' = ctlPc st.
Proof.
  intros Ht Hstep. destruct t; [| |done];
    step_inv Hstep; autorewrite with frame; reflexivity.
Qed.

Lemma kstep_Next (t : Tid) (st : State) :
  exists b, kstep (KNext t b) (skel st) = skel <$> step (Next t) st.
Proof.
  rewrite skel_step. destruct t; simpl; eauto.
Qed.

Lemma kcloser_Some (k k' : Skel) (ok : bool) :
  kcloser k (Some k') = Some ok ->
  ok = true -> kstopped k' = true /\ (kdistance k' < kdistance k)%nat.
Proof.
  unfold kcloser. intros [= <-] [Hs Hlt%Nat.ltb_lt]%andb_prop. by split.
Qed.

Lemma kcloser_None (k : Skel) : kcloser k None = None.
Proof. reflexivity. Qed.

(** Once every thread is woken and [running] is false, letting the two
    threads run brings the rendering thread to its exit and the simulation
    thread to its return, without a pass and without a publish. *)
Lemma settle_stopped (n : nat) (st : State) :
  kstopped (skel st) = true -> (kdistance (skel st) <= n)%nat ->
  let st' := settle n st in
  kstopped (skel st') = true /\ ksettled (skel st') = true /\
  request st' = request st /\ passes (log st') = passes (log st) /\
  ctlPc st' = ctlPc st.
Proof.
  revert st. induction n as [|n IH]; intros st Hs Hd; simpl.
  - split_and!; try done.
    unfold kdistance in Hd. unfold ksettled.
    destruct (k_render (skel st)), (k_sim (skel st)); simpl in *; try done; lia.
  - pose proof (all_Skel_spec _ kdraining_all (skel st)) as Hk.
    unfold kdraining in Hk. rewrite Hs in Hk.
    assert (kinv (skel st) = true /\ running (priv st) = false) as [Hinv Hrun].
    { unfold kstopped in Hs. do 4 (apply andb_prop in Hs as [Hs ?]).
      split; [done|].
      match goal with
      | Hn : negb (k_running _) = true |- _ =>
          apply negb_true_iff in Hn; exact Hn
      end. }
    assert (forall t st1, t <> CtlT -> step (Next t) st = Some st1 ->
              kstopped (skel st1) = true ->
              (kdistance (skel st1) < kdistance (skel st))%nat ->
              let st' := settle n st1 in
              kstopped (skel st') = true /\ ksettled (skel st') = true /\
              request st' = request st /\
              passes (log st') = passes (log st) /\ ctlPc st' = ctlPc st)
      as Hnext.
    { intros t st1 Ht Hstep Hs1 Hlt.
      destruct (IH st1 Hs1 ltac:(lia)) as (H1 & H2 & H3 & H4 & H5).
      split_and!; try done.
      - rewrite H3. by eapply request_stopped.
      - rewrite H4, (passes_step _ _ _ Hstep).
        destruct t as [| |]; [simpl; lia| |done].
        destruct (renderPc st) eqn:Hpc; try lia.
        pose proof (kinv_Facts _ Hinv) as F.
        destruct (fact_pass _ F) as [Hr _]; [by rewrite Hpc|]. congruence.
      - rewrite H5. by eapply ctlPc_step. }
    destruct (kstep_Next RenderT st) as [b HkR].
    pose proof (all_bool_spec _ Hk b) as HkR'. cbv beta in HkR'.
    rewrite HkR in HkR'.
    destruct (step (Next RenderT) st) as [st1|] eqn:HR.
    + change (skel <$> Some st1) with (Some (skel st1)) in HkR'.
      destruct (kcloser (skel st) (Some (skel st1))) as [ok|] eqn:Hcl;
        [|discriminate].
      destruct (kcloser_Some _ _ _ Hcl HkR').
      by eapply (Hnext RenderT st1).
    + change (skel <$> None) with (@None Skel) in HkR'.
      rewrite kcloser_None in HkR'.
      destruct (kstep_Next SimT st) as [b' HkS].
      pose proof (all_bool_spec _ HkR' b') as HkS'. cbv beta in HkS'.
      rewrite HkS in HkS'.
      destruct (step (Next SimT) st) as [st1|] eqn:HS.
      * change (skel <$> Some st1) with (Some (skel st1)) in HkS'.
        destruct (kcloser (skel st) (Some (skel st1))) as [ok|] eqn:Hcl;
          [|discriminate].
        destruct (kcloser_Some _ _ _ Hcl HkS').
        by eapply (Hnext SimT st1).
      * change (skel <$> None) with (@None Skel) in HkS'.
        rewrite kcloser_None in HkS'. split_and!; done.
Qed.

Lemma kdistance_bound (k : Skel) : (kdistance k <= 16)%nat.
Proof.
  unfold kdistance. destruct (k_render k), (k_sim k); simpl; lia.
Qed.


Lemma simK_idle (pc : SimPc) : simK pc = K_idle -> pc = S_idle.
Proof. by destruct pc. Qed.

(** The join of [Stop] goes through once the worker is gone. *)
Lemma join_enabled (st : State) :
  kinv (skel st) = true -> fault st = None -> ctlPc st = C_Stop_join ->
  Rgone (renderPc st) = true ->
  exists st', step (Next CtlT) st = Some st' /\ ctlPc st' = C_idle /\
    renderThread (priv st') = false /\ fault st' = None /\
    log st' = log st ++ (if renderThread (priv st) then [OpJoin] else []).
Proof.
  intros F%kinv_Facts Hf Hc Hg.
  rewrite step_ctl by done. unfold stepCtl. rewrite Hc.
  destruct (renderThread (priv st)) eqn:Ht.
  - destruct (renderPc st) eqn:Hpc; try discriminate.
    + by rewrite (fact_none _ F Hpc) in Ht.
    + eexists. split; [reflexivity|]. autorewrite with frame. by fields.
  - eexists. split; [reflexivity|]. autorewrite with frame.
    by rewrite app_nil_r.
Qed.

Lemma kstopped_intro (st : State) :
  kinv (skel st) = true -> running (priv st) = false -> waiters st = [] ->
  fault st = None -> kstopped (skel st) = true.
Proof.
  intros Hinv Hrun Hw Hf. unfold kstopped. rewrite Hinv.
  unfold waiters in Hw.
  change (k_running (skel st)) with (running (priv st)). rewrite Hrun.
  change (k_renderBlocked (skel st)) with (renderBlocked st).
  replace (k_simBlocked (skel st)) with (simBlocked st)
    by (unfold simBlocked, k_simBlocked; simpl; by destruct (simPc st)).
  change (k_fault (skel st))
    with (match fault st with Some _ => true | None => false end).
  rewrite Hf.
  by destruct (renderBlocked st), (simBlocked st).
Qed.

Lemma kstopped_elim (st : State) :
  kstopped (skel st) = true ->
  kinv (skel st) = true /\ running (priv st) = false /\ fault st = None.
Proof.
  unfold kstopped. intros Hs. do 4 (apply andb_prop in Hs as [Hs ?]).
  split; [exact Hs|]. split.
  - match goal with
    | Hn : negb (k_running _) = true |- _ =>
        apply negb_true_iff in Hn; exact Hn
    end.
  - match goal with
    | Hn : negb (k_fault _) = true |- _ =>
        apply negb_true_iff in Hn; revert Hn
    end.
    change (k_fault (skel st))
      with (match fault st with Some _ => true | None => false end).
    by destruct (fault st).
Qed.

Lemma ksettled_elim (st : State) :
  ksettled (skel st) = true ->
  Rgone (renderPc st) = true /\ simPc st = S_idle.
Proof.
  unfold ksettled. intros [Hg Hidle]%andb_prop. split; [exact Hg|].
  apply simK_idle. change (simK (simPc st)) with (k_sim (skel st)).
  by destruct (k_sim (skel st)).
Qed.

(** Once [Stop] is at its join, sixteen steps of the two other threads
    bring the rendering thread to its exit and the simulation thread back
    to its caller, with the request and the number of passes as they were,
    and the join is then enabled. *)
Lemma stopped_settles (st : State) :
  reachable st -> fault st = None -> ctlPc st = C_Stop_join ->
  let st2 := settle 16 st in
  Rgone (renderPc st2) = true /\ simPc st2 = S_idle /\ fault st2 = None /\
  request st2 = request st /\ passes (log st2) = passes (log st) /\
  exists st3,
    step (Next CtlT) st2 = Some st3 /\ ctlPc st3 = C_idle /\
    renderThread (priv st3) = false /\ fault st3 = None.
Proof.
  intros Hr Hf Hc.
  pose proof (reachable_kinv st Hr) as Hinv.
  pose proof (kinv_Facts st Hinv) as F.
  assert (running (priv st) = false) as Hrun by (apply (fact_stopping _ F); auto).
  assert (waiters st = []) as Hw by (by apply (fact_notified _ F)).
  pose proof (kstopped_intro st Hinv Hrun Hw Hf) as Hs.
  pose proof (settle_stopped 16 st Hs (kdistance_bound _)) as Hsettle.
  cbv zeta in Hsettle |- *.
  set (st2 := settle 16 st) in *. clearbody st2.
  destruct Hsettle as (Hs2 & Hset & Hreq & Hpass & Hc2).
  destruct (kstopped_elim st2 Hs2) as (Hinv2 & _ & Hf2).
  destruct (ksettled_elim st2 Hset) as [Hg Hidle].
  split; [exact Hg|]. split; [exact Hidle|].
  split; [exact Hf2|]. split; [exact Hreq|]. split; [exact Hpass|].
  destruct (join_enabled st2) as (st3 & Hj1 & Hj2 & Hj3 & Hj4 & _);
    [exact Hinv2|exact Hf2|by rewrite Hc2|exact Hg|].
  by exists st3.
Qed.


End Shutdown.



(** ** No rendering sensor *)

Lemma kquiet_preserved : kpreserved kquietly kquiet = true.
Proof. vm_compute. reflexivity. Qed.

Section Quiet.
Context `{Collaborators}.

Lemma quiet_allowed (l : Label) (st : State) :
  quiet l st = true -> allowed l st = true.
Proof. unfold quiet. by intros [Ha _]%andb_prop. Qed.

Lemma quiet_reachable (st : State) : reachableBy quiet st -> reachable st.
Proof. apply reachableBy_weaken, quiet_allowed. Qed.

Lemma quiet_kquiet (st : State) :
  reachableBy quiet st -> kquiet (skel st) = true.
Proof.
  apply (reachableBy_skel quiet kquietly kquiet).
  - intros l st0. unfold quiet, kquietly.
    intros [Ha Hl]%andb_prop. rewrite (allowed_kallowed _ _ Ha).
    by destruct l as [| | |[]| |].
  - reflexivity.
  - exact kquiet_preserved.
Qed.

(** The invariant of the quiet case, fact by fact. *)
Lemma quiet_facts (st : State) :
  reachableBy quiet st ->
  initialized (priv st) = false /\ doInit (priv st) = false /\
  updateAvailable (priv st) = false /\ fault st = None /\
  RinRunOnce (renderPc st) = false /\
  (running (priv st) = true ->
   renderPc st = R_none \/ RwaitingForInit (renderPc st) = true).
Proof.
  intros Hq%quiet_kquiet. unfold kquiet in Hq.
  do 7 (apply andb_prop in Hq as [Hq ?]).
  repeat match goal with
  | Hn : negb _ = true |- _ => apply negb_true_iff in Hn
  end.
  split_and!; try assumption.
  - change (match fault st with Some _ => true | None => false end = false)
      in H3. by destruct (fault st).
  - intros Hrun. change (k_running (skel st)) with (running (priv st)) in *.
    rewrite Hrun in *. change (k_render (skel st)) with (renderPc st) in *.
    destruct (renderPc st); auto; discriminate.
Qed.

Lemma quiet_passes (st : State) :
  reachableBy quiet st -> passes (log st) = 0%nat.
Proof.
  induction 1 as [mgr util|st l st' Hq IH Hl Hstep]; [reflexivity|].
  rewrite (passes_step _ _ _ Hstep), IH.
  destruct (quiet_facts st Hq) as (_ & _ & _ & _ & Hn & _).
  destruct l as [| | |[]| |]; try reflexivity.
  destruct (renderPc st); try reflexivity. discriminate.
Qed.

Lemma quiet_settle (n : nat) (st : State) :
  reachableBy quiet st -> reachableBy quiet (settle n st).
Proof.
  revert st. induction n as [|n IH]; intros st Hq; [exact Hq|].
  cbn [settle].
  destruct (step (Next RenderT) st) as [st1|] eqn:HR.
  - apply IH. exact (reachable_step quiet st (Next RenderT) st1 Hq eq_refl HR).
  - destruct (step (Next SimT) st) as [st1|] eqn:HS; [|exact Hq].
    apply IH. exact (reachable_step quiet st (Next SimT) st1 Hq eq_refl HS).
Qed.

(** C8. As long as no rendering sensor appears, [initialized] and [doInit]
    stay false, no pass is ever executed, the rendering thread never enters
    [RunOnce], and while the system runs the worker (once started) is still
    waiting in [WaitForInit]. A [Stop] then ends as in the general case: the
    worker, woken, leaves [WaitForInit] without initialising and exits, and
    [Stop] joins it. *)
Theorem no_init_no_pass (st : State) :
  reachableBy quiet st ->
  initialized (priv st) = false /\ doInit (priv st) = false /\
  passes (log st) = 0%nat /\ RinRunOnce (renderPc st) = false /\
  (running (priv st) = true ->
   renderPc st = R_none \/ RwaitingForInit (renderPc st) = true) /\
  (ctlPc st = C_Stop_join ->
   let st2 := settle 16 st in
   Rgone (renderPc st2) = true /\ initialized (priv st2) = false /\
   passes (log st2) = 0%nat /\
   exists st3,
     step (Next CtlT) st2 = Some st3 /\ ctlPc st3 = C_idle /\
     renderThread (priv st3) = false /\ fault st3 = None /\
     passes (log st3) = 0%nat).
Proof.
  intros Hq.
  destruct (quiet_facts st Hq) as (Hi & Hd & _ & Hf & Hn & Hw).
  split; [exact Hi|]. split; [exact Hd|].
  split; [by apply quiet_passes|]. split; [exact Hn|]. split; [exact Hw|].
  intros Hc.
  pose proof (stopped_settles st (quiet_reachable st Hq) Hf Hc) as Hsettled.
  pose proof (quiet_settle 16 st Hq) as Hq2.
  cbv zeta in Hsettled |- *.
  set (st2 := settle 16 st) in *. clearbody st2.
  destruct Hsettled as (Hg & _ & _ & _ & _ & st3 & Hj & Hc3 & Ht3 & Hf3).
  destruct (quiet_facts st2 Hq2) as (Hi2 & _).
  split; [exact Hg|]. split; [exact Hi2|].
  split; [by apply quiet_passes|].
  exists st3. split; [exact Hj|]. split; [exact Hc3|].
  split; [exact Ht3|]. split; [exact Hf3|].
  apply (quiet_passes st3).
  exact (reachable_step quiet st2 (Next CtlT) st3 Hq2 eq_refl Hj).
Qed.

End Quiet.

Lemma Demo_calmed_quiet : reachableBy quiet Demo.calmed.
Proof.
  apply (reachableBy_run quiet Demo.calm Demo.fresh).
  - constructor.
  - vm_compute. reflexivity.
Qed.

Lemma no_init_no_pass_witness :
  renderThread (priv Demo.calmed) = true /\
  renderPc Demo.calmed = R_WaitForInit_wait /\
  Rgone (renderPc (settle 16 Demo.calmed)) = true /\
  passes (log (settle 16 Demo.calmed)) = 0%nat.
Proof.
  destruct (no_init_no_pass Demo.calmed Demo_calmed_quiet)
    as (_ & _ & _ & _ & _ & Hstop).
  destruct (Hstop eq_refl) as (Hg & _ & Hp & _).
  split; [reflexivity|]. split; [reflexivity|]. split; [exact Hg|exact Hp].
Defined.

(** ** The theorems at work on the small instance *)

Lemma Demo_consistent : consistent (sensorManager Demo.withA).
Proof.
  intros id x Hx. change (sensorManager Demo.withA) with [Demo.sensorA] in Hx.
  cbn in Hx. unfold Demo.lookup in Hx. cbn in Hx.
  destruct id as [|p]; [discriminate|].
  destruct p; try discriminate. by injection Hx as <-.
Qed.

Lemma CreateSensor_contract_witness :
  createdResult (CreateSensor Demo.camera "model" (priv Demo.fresh)) =
    inr "camera" /\
  sensorIds (createdData (CreateSensor Demo.camera "model" (priv Demo.fresh)))
    = [1%N] /\
  createdResult (CreateSensor Demo.untyped "model" (priv Demo.fresh)) = inr "".
Proof.
  destruct (CreateSensor_contract Demo.camera "model" (priv Demo.fresh))
    as [_ Hok].
  destruct (Hok 1%N [Demo.sensorA] Demo.sensorA) as (Hres & _);
    [discriminate|reflexivity|reflexivity|reflexivity|discriminate|].
  destruct (CreateSensor_contract Demo.untyped "model" (priv Demo.fresh))
    as [Hnone _].
  split; [exact Hres|]. split; [reflexivity|].
  by rewrite (Hnone eq_refl).
Defined.

Lemma CreateSensor_null_dereference_witness :
  createdResult (CreateSensor Demo.altimeter "model" (priv Demo.fresh)) =
    inl NullDereference /\
  sensorIds
    (createdData (CreateSensor Demo.altimeter "model" (priv Demo.fresh))) =
    [1%N].
Proof.
  destruct (CreateSensor_null_dereference Demo.altimeter "model"
              (priv Demo.fresh) 1%N
              [{| Id := 1; Name := "altimeter"; isRendering := false;
                  UpdateRate := 10; NextUpdateTime := 0 |}])
    as (Hids & Hfault & _); [discriminate|reflexivity|].
  split; [|exact Hids]. apply Hfault. reflexivity.
Defined.


(** * Further properties *)

(** ** The scan as a whole *)

Section ScanFacts.
Context `{Collaborators}.

Lemma scanSensor_unmasked (mgr : Manager) (t : Time) (id : SensorId)
    (mask mask1 : gmap N Q) (active active1 : list Sensor) :
  scanSensor mgr t id (mask, active) = (mask1, active1) ->
  (forall j, unmasked mask1 t j = unmasked mask t j) /\
  (forall j, mask1 !! j =
     if decide (j = id)
     then (if unmasked mask t id then None else mask !! id)
     else mask !! j) /\
  active1 =
    active ++
    (if unmasked mask t id then
       match dynamic_cast (mgrSensor mgr id) with
       | Some r => if Qle_bool (NextUpdateTime r) t then [r] else []
       | None => []
       end
     else []).
Proof.
  unfold scanSensor, unmasked.
  destruct (mask !! id) as [deadline|] eqn:Hm.
  - destruct (Qle_bool deadline t) eqn:Hd.
    + intros Heq.
      assert (mask1 = delete id mask /\
              active1 = active ++
                match dynamic_cast (mgrSensor mgr id) with
                | Some r => if Qle_bool (NextUpdateTime r) t then [r] else []
                | None => []
                end) as [-> ->].
      { destruct (dynamic_cast (mgrSensor mgr id)) as [r|];
          [destruct (Qle_bool (NextUpdateTime r) t)|];
          injection Heq as <- <-; by rewrite ?app_nil_r. }
      split_and!; [| |done].
      * intros j. destruct (decide (j = id)) as [->|Hne].
        -- by rewrite lookup_delete_eq, Hm, Hd.
        -- by rewrite lookup_delete_ne.
      * intros j. destruct (decide (j = id)) as [->|Hne].
        -- by rewrite lookup_delete_eq.
        -- by rewrite lookup_delete_ne.
    + intros [= <- <-]. rewrite app_nil_r. split_and!; [done| |done].
      intros j. destruct (decide (j = id)) as [->|Hne]; done.
  - intros Heq.
    assert (mask1 = mask /\
            active1 = active ++
              match dynamic_cast (mgrSensor mgr id) with
              | Some r => if Qle_bool (NextUpdateTime r) t then [r] else []
              | None => []
              end) as [-> ->].
    { destruct (dynamic_cast (mgrSensor mgr id)) as [r|];
        [destruct (Qle_bool (NextUpdateTime r) t)|];
        injection Heq as <- <-; by rewrite ?app_nil_r. }
    split_and!; [done| |done].
    intros j. destruct (decide (j = id)) as [->|Hne]; done.
Qed.

Lemma scanFrom_unfold (mgr : Manager) (t : Time) (ids : list SensorId)
    (mask : gmap N Q) (active : list Sensor) :
  forall mask' active',
  scanFrom mgr t ids (mask, active) = (mask', active') ->
  (forall j, unmasked mask' t j = unmasked mask t j) /\
  (forall j, mask' !! j =
     if bool_decide (j ∈ ids) && unmasked mask t j then None else mask !! j) /\
  active' = active ++ concat (map (selected mgr t mask) ids).
Proof.
  revert mask active.
  induction ids as [|id ids IH]; intros mask active mask' active' Hscan.
  - simpl in Hscan. injection Hscan as <- <-. rewrite app_nil_r.
    split_and!; try done.
  - rewrite scanFrom_cons in Hscan.
    destruct (scanSensor mgr t id (mask, active)) as [mask1 active1] eqn:Heq.
    destruct (scanSensor_unmasked _ _ _ _ _ _ _ Heq) as (Hu1 & Hm1 & ->).
    destruct (IH _ _ _ _ Hscan) as (Hu & Hm & ->).
    split_and!.
    + intros j. by rewrite Hu, Hu1.
    + intros j. rewrite Hm, Hu1, Hm1.
      destruct (decide (j = id)) as [->|Hne].
      * rewrite (bool_decide_true (id ∈ id :: ids)) by (apply elem_of_cons; by left).
        simpl. destruct (unmasked mask t id) eqn:Hun; [|by rewrite andb_false_r].
        by destruct (bool_decide (id ∈ ids)).
      * assert (bool_decide (j ∈ id :: ids) = bool_decide (j ∈ ids)) as ->.
        { apply bool_decide_ext. rewrite elem_of_cons. tauto. }
        done.
    + assert (map (selected mgr t mask1) ids = map (selected mgr t mask) ids)
        as ->.
      { apply map_ext. intros j. unfold selected. by rewrite Hu1. }
      simpl. by rewrite <- app_assoc.
Qed.

End ScanFacts.

Lemma elem_of_concat_map {A B : Type} (f : A -> list B) (l : list A) (x : B) :
  x ∈ concat (map f l) <-> exists y, y ∈ l /\ x ∈ f y.
Proof.
  induction l as [|a l IH]; simpl.
  - rewrite elem_of_nil. split; [done|]. intros (y & Hy & _).
    by apply elem_of_nil in Hy.
  - rewrite elem_of_app, IH. split.
    + intros [Hx|(y & Hy & Hx)].
      * exists a. split; [apply elem_of_cons; by left|done].
      * exists y. split; [apply elem_of_cons; by right|done].
    + intros (y & Hy & Hx). apply elem_of_cons in Hy as [->|Hy].
      * by left.
      * right. by exists y.
Qed.

Section ScanTheorems.
Context `{Collaborators}.

Lemma unmasked_spec (mask : gmap N Q) (t : Time) (id : SensorId) :
  unmasked mask t id = true <-> forall d, mask !! id = Some d -> d <= t.
Proof.
  unfold unmasked. destruct (mask !! id) as [d|].
  - rewrite Qle_bool_iff. split; [by intros Hd d' [= <-]|by intros Hd; apply Hd].
  - split; [by intros _ d'|done].
Qed.

Lemma elem_of_selected (mgr : Manager) (t : Time) (mask : gmap N Q)
    (id : SensorId) (s : Sensor) :
  s ∈ selected mgr t mask id <->
  mgrSensor mgr id = Some s /\ isRendering s = true /\
  NextUpdateTime s <= t /\ unmasked mask t id = true.
Proof.
  unfold selected. destruct (unmasked mask t id).
  - destruct (dynamic_cast (mgrSensor mgr id)) as [r|] eqn:Hdc.
    + apply dynamic_cast_Some in Hdc as [Hs Hr].
      destruct (Qle_bool (NextUpdateTime r) t) eqn:Hd.
      * rewrite list_elem_of_singleton. apply Qle_bool_iff in Hd. split.
        -- by intros ->.
        -- intros (Hs' & _). congruence.
      * rewrite elem_of_nil. split; [done|]. intros (Hs' & _ & Hle & _).
        apply Qle_bool_false in Hd. assert (s = r) as -> by congruence.
        by apply Qlt_not_le in Hd.
    + rewrite elem_of_nil. split; [done|]. intros (Hs' & Hr' & _).
      assert (dynamic_cast (mgrSensor mgr id) = Some s) as Hdc'
        by (by apply dynamic_cast_Some).
      congruence.
  - rewrite elem_of_nil. split; [done|]. by intros (_ & _ & _ & ?).
Qed.

(** X1. The loop of [Sensors::PostUpdate] over [sensorIds] at time [t]
    selects exactly the sensors that the manager holds under a registered
    id, that are rendering sensors, whose next update time has come, and
    whose mask entry, if there is one, is not after [t]. It erases exactly
    the mask entries of registered ids whose deadline is not after [t] and
    leaves every other entry as it was. *)
Theorem scan_selects (mgr : Manager) (t : Time) (ids : list SensorId)
    (mask : gmap N Q) :
  (forall s,
     s ∈ snd (scan mgr t ids mask) <->
     exists id, id ∈ ids /\ mgrSensor mgr id = Some s /\
       isRendering s = true /\ NextUpdateTime s <= t /\
       forall d, mask !! id = Some d -> d <= t) /\
  (forall id,
     fst (scan mgr t ids mask) !! id =
       match mask !! id with
       | Some d => if bool_decide (id ∈ ids) && Qle_bool d t then None else Some d
       | None => None
       end).
Proof.
  unfold scan.
  destruct (scanFrom mgr t ids (mask, [])) as [mask' active'] eqn:Hscan.
  destruct (scanFrom_unfold _ _ _ _ _ _ _ Hscan) as (_ & Hm & ->).
  split.
  - intros s. simpl. rewrite elem_of_concat_map. split.
    + intros (id & Hid & Hs).
      apply elem_of_selected in Hs as (Hs & Hr & Hd & Hu).
      exists id. split_and!; try done. by apply unmasked_spec.
    + intros (id & Hid & Hs & Hr & Hd & Hu).
      exists id. split; [done|].
      apply elem_of_selected. split_and!; try done. by apply unmasked_spec.
  - intros id. simpl. rewrite Hm. unfold unmasked.
    destruct (mask !! id) as [d|]; [done|].
    by destruct (bool_decide (id ∈ ids)).
Qed.

(** X2. Over a manager whose sensors carry the id they are looked up by,
    the active set of a scan lists its sensors in the order of the registry:
    the ids of the active set are a sublist of [sensorIds], so that no
    sensor is selected twice when the registry holds no id twice. *)
Theorem scan_in_registry_order (mgr : Manager) (t : Time)
    (ids : list SensorId) (mask : gmap N Q) :
  consistent mgr ->
  map Id (snd (scan mgr t ids mask)) `sublist_of` ids /\
  (NoDup ids -> NoDup (map Id (snd (scan mgr t ids mask)))).
Proof.
  intros Hc. unfold scan.
  destruct (scanFrom mgr t ids (mask, [])) as [mask' active'] eqn:Hscan.
  destruct (scanFrom_ids mgr t ids mask [] Hc mask' active' Hscan)
    as (added & -> & Hsub).
  split; [exact Hsub|]. intros Hnd. by eapply sublist_NoDup.
Qed.

(** X3. A scan repeated at the same time, with no rendering pass in
    between, changes nothing and selects the same sensors: the second scan
    returns what the first returned. *)
Theorem scan_idempotent (mgr : Manager) (t : Time) (ids : list SensorId)
    (mask : gmap N Q) :
  scan mgr t ids (fst (scan mgr t ids mask)) = scan mgr t ids mask.
Proof.
  unfold scan.
  destruct (scanFrom mgr t ids (mask, [])) as [mask1 active1] eqn:Hscan1.
  simpl.
  destruct (scanFrom mgr t ids (mask1, [])) as [mask2 active2] eqn:Hscan2.
  destruct (scanFrom_unfold _ _ _ _ _ _ _ Hscan1) as (Hu1 & Hm1 & ->).
  destruct (scanFrom_unfold _ _ _ _ _ _ _ Hscan2) as (_ & Hm2 & ->).
  f_equal.
  - apply map_eq. intros j. rewrite Hm2, Hu1, Hm1.
    by destruct (bool_decide (j ∈ ids) && unmasked mask t j).
  - simpl. f_equal. apply map_ext. intros j. unfold selected. by rewrite Hu1.
Qed.

End ScanTheorems.


(** ** Who sleeps, and who holds the lock *)

Lemma kawake_preserved : kpreserved kallowed kawake = true.
Proof. vm_compute. reflexivity. Qed.

Section Wakeups.
Context `{Collaborators}.

Lemma reachable_kawake (st : State) : reachable st -> kawake (skel st) = true.
Proof.
  apply (reachableBy_skel allowed kallowed kawake).
  - exact allowed_kallowed.
  - reflexivity.
  - exact kawake_preserved.
Qed.

(** X5. In every reachable state [renderMutex] is owned by the rendering
    thread exactly while it is between taking the lock and releasing it in
    [WaitForInit] or [RunOnce], by the simulation thread exactly while it is
    in the guarded block of [PostUpdate], and by nobody otherwise; the two
    are never inside at the same time. *)
Theorem lock_discipline (st : State) :
  reachable st ->
  Rlocked (renderPc st) && Slocked (simPc st) = false /\
  (renderMutex (priv st) = Some RenderT <-> Rlocked (renderPc st) = true) /\
  (renderMutex (priv st) = Some SimT <-> Slocked (simPc st) = true) /\
  renderMutex (priv st) <> Some CtlT.
Proof.
  intros F%reachable_Facts.
  pose proof (fact_mutex _ F) as Hm. pose proof (fact_exclusion _ F) as Hx.
  split; [exact Hx|].
  destruct (Rlocked (renderPc st)), (Slocked (simPc st)); try discriminate;
    rewrite Hm; split_and!; try done; split; done.
Qed.

(** X6. No wake-up is lost. In every reachable state, a rendering thread
    asleep in [WaitForInit] still has nothing to do ([doInit] is false and
    the system is running), one asleep in [RunOnce] has no request (the
    system is running and [updateAvailable] is false), and a simulation
    thread asleep at the gate still has a request in front of it; the only
    exceptions are the moments between a store and the notify that follows
    it ([Stop] at line 229, the end of a pass at line 194). The two threads
    are never asleep together, and as long as [Stop] has not intervened the
    simulation thread sleeps only while a rendering thread exists to serve
    the request. *)
Theorem no_lost_wakeup (st : State) :
  reachable st ->
  (renderPc st = R_WaitForInit_blocked ->
   (doInit (priv st) = false /\ running (priv st) = true) \/
   ctlPc st = C_Stop_notify) /\
  (renderPc st = R_RunOnce_blocked ->
   (running (priv st) = true /\ updateAvailable (priv st) = false) \/
   ctlPc st = C_Stop_notify) /\
  (simBlocked st = true ->
   ((running (priv st) = true /\ updateAvailable (priv st) = true) \/
    ctlPc st = C_Stop_notify \/ renderPc st = R_RunOnce_notify) /\
   renderBlocked st = false /\
   (ctlPc st <> C_Stop_notify -> Rgone (renderPc st) = false)).
Proof.
  intros Hk%reachable_kawake. unfold kawake in Hk.
  do 6 (apply andb_prop in Hk as [Hk ?]).
  unfold kstopNotice, k_renderBlocked, k_simBlocked in *.
  change (k_render (skel st)) with (renderPc st) in *.
  change (k_ctl (skel st)) with (ctlPc st) in *.
  change (k_running (skel st)) with (running (priv st)) in *.
  change (k_doInit (skel st)) with (doInit (priv st)) in *.
  change (k_updateAvailable (skel st)) with (updateAvailable (priv st)) in *.
  change (k_sim (skel st)) with (simK (simPc st)) in *.
  split_and!.
  - intros E. rewrite E in *.
    destruct (doInit (priv st)), (running (priv st)), (ctlPc st);
      simpl in *; try discriminate; auto.
  - intros E. rewrite E in *.
    destruct (running (priv st)), (updateAvailable (priv st)), (ctlPc st);
      simpl in *; try discriminate; auto.
  - unfold simBlocked, renderBlocked. intros E.
    destruct (simPc st); try discriminate. simpl in *.
    split_and!.
    + destruct (running (priv st)), (updateAvailable (priv st)), (ctlPc st),
        (renderPc st); simpl in *; try discriminate; auto.
    + by destruct (renderPc st).
    + intros Hc. destruct (ctlPc st), (renderPc st); simpl in *; done.
Qed.

End Wakeups.

(** ** Counting the calls into the render utility *)

Lemma inits_app (a b : list Op) : inits (a ++ b) = (inits a + inits b)%nat.
Proof. unfold inits. by rewrite List.filter_app, length_app. Qed.
Lemma ecms_app (a b : list Op) : ecms (a ++ b) = (ecms a + ecms b)%nat.
Proof. unfold ecms. by rewrite List.filter_app, length_app. Qed.
Lemma spawns_app (a b : list Op) : spawns (a ++ b) = (spawns a + spawns b)%nat.
Proof. unfold spawns. by rewrite List.filter_app, length_app. Qed.
Lemma joins_app (a b : list Op) : joins (a ++ b) = (joins a + joins b)%nat.
Proof. unfold joins. by rewrite List.filter_app, length_app. Qed.

Lemma counts_maskOps (t : Time) (active : list Sensor) :
  inits (maskOps t active) = 0%nat /\ ecms (maskOps t active) = 0%nat /\
  spawns (maskOps t active) = 0%nat /\ joins (maskOps t active) = 0%nat.
Proof. by induction active. Qed.

Lemma counts_one (o : Op) :
  inits [o] = match o with OpInit => 1 | _ => 0 end%nat /\
  ecms [o] = match o with OpUpdateFromECM _ => 1 | _ => 0 end%nat /\
  passes [o] = match o with OpUpdate => 1 | _ => 0 end%nat /\
  spawns [o] = match o with OpSpawn => 1 | _ => 0 end%nat /\
  joins [o] = match o with OpJoin => 1 | _ => 0 end%nat.
Proof. by destruct o. Qed.

Section Counting.
Context `{Collaborators}.

Lemma counts_createdOps sdf parentName d :
  let ops := createdOps (CreateSensor sdf parentName d) in
  inits ops = 0%nat /\ ecms ops = 0%nat /\ spawns ops = 0%nat /\
  joins ops = 0%nat.
Proof.
  unfold CreateSensor. destruct (SensorType_is_NONE _); [done|].
  destruct (mgrCreateSensor _ _) as [sensorId mgr].
  destruct (dynamic_cast _);
    match goal with
    | |- context [if ?b then [OpErr _] else []] => by destruct b
    end.
Qed.

End Counting.

(** Rewrites the counters of a log that a step has extended. *)
Ltac count_ops :=
  autorewrite with frame; fields;
  rewrite ?inits_app, ?ecms_app, ?passes_app, ?spawns_app, ?joins_app;
  rewrite ?(proj1 (counts_maskOps _ _)),
    ?(proj1 (proj2 (counts_maskOps _ _))),
    ?(proj1 (proj2 (proj2 (counts_maskOps _ _)))),
    ?(proj2 (proj2 (proj2 (counts_maskOps _ _)))), ?passes_maskOps;
  rewrite ?(proj1 (counts_one _)),
    ?(proj1 (proj2 (counts_one _))),
    ?(proj1 (proj2 (proj2 (counts_one _)))),
    ?(proj1 (proj2 (proj2 (proj2 (counts_one _))))),
    ?(proj2 (proj2 (proj2 (proj2 (counts_one _))))).

Section InitOnce.
Context `{Collaborators}.

Lemma initFirst_step (l : Label) (st st' : State) :
  Facts st -> step l st = Some st' -> initFirst st -> initFirst st'.
Proof.
  intros F Hstep [Hi Hn]. unfold initFirst.
  destruct l as [info ecm| | |t|t|sdf pn].
  6:{ unfold step in Hstep. destruct (fault st); [discriminate|].
      injection Hstep as <-.
      rewrite log_stepCallback.
      destruct (counts_createdOps sdf pn (priv st)) as (H1 & H2 & _).
      pose proof (passes_createdOps sdf pn (priv st)) as H3.
      destruct (CreateSensor_frame sdf pn (priv st)) as (Ei & _ & Es & _).
      assert (priv (stepCallback sdf pn st) =
              createdData (CreateSensor sdf pn (priv st))) as ->.
      { unfold stepCallback. by destruct (createdResult _). }
      cbv zeta in *. rewrite Ei, Es, inits_app, passes_app, ecms_app, H1, H2, H3.
      split; [lia|]. intros E. destruct (Hn E) as (? & ? & ?).
      split_and!; [done|lia|lia]. }
  5:{ unfold step in Hstep. destruct (fault st); [discriminate|].
      destruct (waiting t st); [|discriminate]. injection Hstep as <-.
      rewrite log_wake, priv_wake. by split. }
  all: try destruct t.
  all: step_inv Hstep; count_ops; rewrite ?Nat.add_0_r.
  all: try (split; [exact Hi|exact Hn]).
  all: try match goal with
    | Hpc : simPc _ = S_UpdateFromECM _ _ |- _ =>
        pose proof (fact_inside _ F) as Hx; rewrite Hpc in Hx;
        specialize (Hx eq_refl); rewrite Hx in *; split; [exact Hi|done]
    | Hpc : renderPc _ = R_RunOnce_Update |- _ =>
        destruct (fact_pass _ F) as [_ Hua]; [by rewrite Hpc|];
        pose proof (fact_available _ F Hua) as Hx; rewrite Hx in *;
        split; [exact Hi|done]
    | Hpc : renderPc _ = R_WaitForInit_doInit |- _ =>
        pose proof (fact_early _ F) as Hx; rewrite Hpc in Hx;
        specialize (Hx eq_refl); rewrite Hx in Hi; split; [lia|done]
    end.
  all: split; [exact Hi|]; intros E; destruct (Hn E) as (? & ? & ?);
    split_and!; congruence.
Qed.

(** X7. [renderUtil.Init()] is called at most once, and [initialized] tells
    whether it was; as long as it was not, [scene] is null and the render
    utility has seen neither [UpdateFromECM] nor [Update]. *)
Theorem Init_once_and_first (st : State) :
  reachable st ->
  inits (log st) = (if initialized (priv st) then 1 else 0)%nat /\
  (initialized (priv st) = false ->
   scene (priv st) = None /\ passes (log st) = 0%nat /\
   ecms (log st) = 0%nat).
Proof.
  induction 1 as [mgr util|st l st' Hr IH Hl Hstep].
  - by split.
  - eapply initFirst_step; [|exact Hstep|exact IH].
    by apply reachable_Facts.
Qed.

End InitOnce.

(** ** Passes and updates *)

Section Classes.
Context `{Collaborators}.

Lemma renderPc_set_fault f st : renderPc (set_fault f st) = renderPc st.
Proof. reflexivity. Qed.
Lemma simPc_set_fault f st : simPc (set_fault f st) = simPc st.
Proof. reflexivity. Qed.
Lemma ctlPc_set_fault f st : ctlPc (set_fault f st) = ctlPc st.
Proof. reflexivity. Qed.

Lemma Rcounted_wake t st :
  Rcounted (renderPc (wake t st)) = Rcounted (renderPc st).
Proof.
  destruct t; unfold wake;
    [by destruct (simPc st)|by destruct (renderPc st) eqn:E; simpl; rewrite ?E|done].
Qed.
Lemma Rcounted_notify_one st :
  Rcounted (renderPc (notify_one st)) = Rcounted (renderPc st).
Proof. unfold notify_one. destruct (waiters st); [done|apply Rcounted_wake]. Qed.
Lemma Rcounted_notify_all st :
  Rcounted (renderPc (notify_all st)) = Rcounted (renderPc st).
Proof. unfold notify_all. by rewrite !Rcounted_wake. Qed.

Lemma Sinflight_wake t st :
  Sinflight (simPc (wake t st)) = Sinflight (simPc st).
Proof.
  destruct t; unfold wake;
    [by destruct (simPc st) eqn:E; simpl; rewrite ?E|by destruct (renderPc st)|done].
Qed.
Lemma Sinflight_notify_one st :
  Sinflight (simPc (notify_one st)) = Sinflight (simPc st).
Proof. unfold notify_one. destruct (waiters st); [done|apply Sinflight_wake]. Qed.
Lemma Sinflight_notify_all st :
  Sinflight (simPc (notify_all st)) = Sinflight (simPc st).
Proof. unfold notify_all. by rewrite !Sinflight_wake. Qed.

End Classes.

Create Rewrite HintDb classes.
#[export] Hint Rewrite @renderPc_set_fault @simPc_set_fault @ctlPc_set_fault
  @Rcounted_wake @Rcounted_notify_one @Rcounted_notify_all
  @Sinflight_wake @Sinflight_notify_one @Sinflight_notify_all : classes.

Section Bounded.
Context `{Collaborators}.

Lemma owed_step (l : Label) (st st' : State) :
  Facts st -> step l st = Some st' ->
  (passes (log st) + owed st <= ecms (log st))%nat ->
  (passes (log st') + owed st' <= ecms (log st'))%nat.
Proof.
  intros F Hstep IH.
  pose proof (fact_pass _ F) as Hp. pose proof (fact_publish _ F) as Hpub.
  destruct l as [info ecm| | |t|t|sdf pn].
  5:{ unfold step in Hstep. destruct (fault st); [discriminate|].
      destruct (waiting t st); [|discriminate]. injection Hstep as <-.
      unfold owed in *.
      by rewrite log_wake, priv_wake, Rcounted_wake, Sinflight_wake. }
  5:{ unfold step in Hstep. destruct (fault st); [discriminate|].
      injection Hstep as <-.
      rewrite log_stepCallback.
      destruct (counts_createdOps sdf pn (priv st)) as (_ & H2 & _).
      pose proof (passes_createdOps sdf pn (priv st)) as H3.
      destruct (CreateSensor_frame sdf pn (priv st))
        as (_ & _ & _ & _ & _ & Eu & _).
      cbv zeta in *. rewrite passes_app, ecms_app, H2, H3.
      assert (owed (stepCallback sdf pn st) = owed st) as ->; [|lia].
      unfold owed, stepCallback.
      destruct (createdResult _); simpl; by rewrite Eu. }
  all: try destruct t.
  all: step_inv Hstep; unfold owed in *; count_ops;
    autorewrite with classes frame;
    repeat match goal with
    | Hpc : renderPc _ = _ |- _ => rewrite Hpc in *
    | Hpc : simPc _ = _ |- _ => rewrite Hpc in *
    end;
    cbn [Rcounted Sinflight Rpass negb andb] in *;
    rewrite ?andb_true_r, ?andb_false_r in *.
  all: try (destruct (updateAvailable (priv st)); simpl in *; lia).
  all: try (destruct Hp as [_ Hua]; [reflexivity|]; rewrite Hua in *;
            simpl in *; lia).
  all: try match goal with
    | Hc : ctlPc _ = C_Run_thread |- _ =>
        pose proof (fact_starting _ F (or_intror Hc)); congruence
    end.
  destruct (Hpub _ _ eq_refl) as [_ Hua]. rewrite Hua in *.
  destruct (renderPc st); simpl in *; lia.
Qed.

(** X8. The rendering thread never makes more passes than the simulation
    made updates: along every reachable execution, spurious wake-ups
    included, the calls of [renderUtil.Update()] number at most the calls of
    [renderUtil.UpdateFromECM], and fewer while a request is published and
    its pass has not begun, or a call of [PostUpdate] has not yet
    returned. *)
Theorem passes_bounded (st : State) :
  reachable st -> (passes (log st) + owed st <= ecms (log st))%nat.
Proof.
  induction 1 as [mgr util|st l st' Hr IH Hl Hstep].
  - reflexivity.
  - eapply owed_step; [|exact Hstep|exact IH]. by apply reachable_Facts.
Qed.

End Bounded.

(** ** The worker thread, started and joined *)

Section Balance.
Context `{Collaborators}.

Lemma Rstarted_wake t st :
  Rstarted (renderPc (wake t st)) = Rstarted (renderPc st).
Proof.
  destruct t; unfold wake;
    [by destruct (simPc st)|by destruct (renderPc st) eqn:E; simpl; rewrite ?E|done].
Qed.
Lemma Rstarted_notify_one st :
  Rstarted (renderPc (notify_one st)) = Rstarted (renderPc st).
Proof. unfold notify_one. destruct (waiters st); [done|apply Rstarted_wake]. Qed.
Lemma Rstarted_notify_all st :
  Rstarted (renderPc (notify_all st)) = Rstarted (renderPc st).
Proof. unfold notify_all. by rewrite !Rstarted_wake. Qed.

Lemma balanced_step (l : Label) (st st' : State) :
  Facts st -> step l st = Some st' -> balanced st -> balanced st'.
Proof.
  intros F Hstep [Hs Hj]. unfold balanced.
  pose proof (fact_starting _ F) as Hst. pose proof (fact_none _ F) as Hnone.
  destruct l as [info ecm| | |t|t|sdf pn].
  5:{ unfold step in Hstep. destruct (fault st); [discriminate|].
      destruct (waiting t st); [|discriminate]. injection Hstep as <-.
      by rewrite log_wake, priv_wake, Rstarted_wake. }
  5:{ unfold step in Hstep. destruct (fault st); [discriminate|].
      injection Hstep as <-.
      rewrite log_stepCallback.
      destruct (counts_createdOps sdf pn (priv st)) as (_ & _ & H2 & H3).
      destruct (CreateSensor_frame sdf pn (priv st))
        as (_ & _ & _ & _ & _ & _ & Et & _).
      cbv zeta in *. rewrite spawns_app, joins_app, H2, H3.
      assert (renderPc (stepCallback sdf pn st) = renderPc st /\
              renderThread (priv (stepCallback sdf pn st)) =
                renderThread (priv st)) as [-> ->].
      { unfold stepCallback. by destruct (createdResult _). }
      split; lia. }
  all: try destruct t.
  all: step_inv Hstep; count_ops;
    autorewrite with classes frame;
    rewrite ?Rstarted_notify_one, ?Rstarted_notify_all;
    autorewrite with frame;
    repeat match goal with
    | Hpc : renderPc _ = _ |- _ => rewrite Hpc in *
    end;
    cbn [Rstarted] in *; rewrite ?Nat.add_0_r.
  all: repeat match goal with
    | Hb : renderThread _ = _ |- _ => rewrite Hb in *
    end.
  all: try (split; lia).
  all: try (specialize (Hst (or_intror eq_refl)); discriminate).
  all: try (specialize (Hnone eq_refl); discriminate).
Qed.

(** X9. Along every execution in which [Run] is not called again once
    the worker was started, one thread is constructed at most, it is joined
    at most once, and [renderThread.joinable()] tells exactly whether a
    constructed thread is still to be joined. *)
Theorem worker_balance (st : State) :
  reachable st ->
  spawns (log st) = (if Rstarted (renderPc st) then 1 else 0)%nat /\
  (joins (log st) + (if renderThread (priv st) then 1 else 0))%nat =
    spawns (log st).
Proof.
  induction 1 as [mgr util|st l st' Hr IH Hl Hstep].
  - by split.
  - eapply balanced_step; [|exact Hstep|exact IH]. by apply reachable_Facts.
Qed.

End Balance.

(** ** The registry *)

Section Registry.
Context `{Collaborators}.

Lemma CreateSensor_sensorIds sdf parentName d :
  sensorIds (createdData (CreateSensor sdf parentName d)) = sensorIds d \/
  exists id,
    sensorIds (createdData (CreateSensor sdf parentName d)) =
      set_insert id (sensorIds d).
Proof.
  unfold CreateSensor. destruct (SensorType_is_NONE _); [by left|].
  destruct (mgrCreateSensor _ _) as [sensorId mgr].
  right. exists sensorId. by destruct (dynamic_cast _).
Qed.

Lemma priv_stepCallback sdf parentName st :
  priv (stepCallback sdf parentName st) =
  createdData (CreateSensor sdf parentName (priv st)).
Proof. unfold stepCallback. by destruct (createdResult _). Qed.

(** Only the callback writes the registry and the flags that latch. *)
Lemma latches_step (l : Label) (st st' : State) :
  step l st = Some st' ->
  (initialized (priv st) = true -> initialized (priv st') = true) /\
  (doInit (priv st) = true -> doInit (priv st') = true) /\
  (sensorIds (priv st') = sensorIds (priv st) \/
   exists sdf parentName id,
     l = Callback sdf parentName /\
     sensorIds (priv st') = set_insert id (sensorIds (priv st))).
Proof.
  intros Hstep.
  destruct l as [info ecm| | |t|t|sdf pn].
  5:{ unfold step in Hstep. destruct (fault st); [discriminate|].
      destruct (waiting t st); [|discriminate]. injection Hstep as <-.
      rewrite priv_wake. split_and!; try done. by left. }
  5:{ unfold step in Hstep. destruct (fault st); [discriminate|].
      injection Hstep as <-. rewrite priv_stepCallback.
      destruct (CreateSensor_frame sdf pn (priv st))
        as (Ei & _ & _ & _ & Ed & _).
      cbv zeta in *. rewrite Ei, Ed. split_and!; try done.
      destruct (CreateSensor_sensorIds sdf pn (priv st)) as [E|(id & E)].
      - by left.
      - right. by exists sdf, pn, id. }
  all: try destruct t.
  all: step_inv Hstep; autorewrite with frame; fields;
    split_and!; try done; by left.
Qed.

(** X10. The registry of sensor ids is a set that only grows: in every
    reachable state [sensorIds] is strictly ascending, a step never removes
    an id, only the callback [Sensors::CreateSensor] adds one, and neither
    [initialized] nor [doInit] is ever reset. *)
Theorem registry_only_grows (l : Label) (st st' : State) :
  reachable st -> step l st = Some st' ->
  StronglySorted N.lt (sensorIds (priv st')) /\
  (forall id, id ∈ sensorIds (priv st) -> id ∈ sensorIds (priv st')) /\
  ((forall sdf parentName, l <> Callback sdf parentName) ->
   sensorIds (priv st') = sensorIds (priv st)) /\
  (initialized (priv st) = true -> initialized (priv st') = true) /\
  (doInit (priv st) = true -> doInit (priv st') = true).
Proof.
  intros Hr Hstep.
  assert (StronglySorted N.lt (sensorIds (priv st))) as Hsorted.
  { clear Hstep. induction Hr as [mgr util|st0 l0 st1 Hr IH Hl Hstep].
    - constructor.
    - destruct (latches_step _ _ _ Hstep) as (_ & _ & [E|(? & ? & id & _ & E)]);
        rewrite E; [done|by apply set_insert_sorted]. }
  destruct (latches_step _ _ _ Hstep) as (Hi & Hd & Hids).
  split_and!; try done.
  - destruct Hids as [E|(? & ? & id & _ & E)]; rewrite E;
      [done|by apply set_insert_sorted].
  - intros id Hin. destruct Hids as [E|(? & ? & id' & _ & E)]; rewrite E;
      [done|]. apply elem_of_set_insert. by right.
  - intros Hl. destruct Hids as [E|(sdf & pn & id' & -> & E)]; [done|].
    by destruct (Hl sdf pn).
Qed.

End Registry.

(** ** The functions of the worker, one at a time *)

Section Solo.
Context `{Collaborators}.

Lemma alone_blocked (t : Tid) (fuel : nat) (st : State) :
  step (Next t) st = None -> alone t fuel st = None.
Proof. intros Hstep. destruct fuel; [done|]. simpl. by rewrite Hstep. Qed.

(** X11. [WaitForInit], entered at its loop test with the lock free:
    when the system is already initialised or not running it returns at
    once and changes nothing, even if initialisation was requested; when
    initialisation was requested it calls [renderUtil.Init()] once, takes
    the scene from the render utility, sets [initialized], clears
    [updateAvailable] and returns; otherwise the thread goes to sleep in
    [renderCv.wait] with the lock released and nothing changed. *)
Theorem WaitForInit_spec (st : State) :
  fault st = None -> renderPc st = R_WaitForInit_while -> unlocked st = true ->
  (initialized (priv st) = true \/ running (priv st) = false ->
   WaitForInit st = Some (set_renderPc R_RenderThread_while st)) /\
  (initialized (priv st) = false -> running (priv st) = true ->
   doInit (priv st) = true ->
   exists st', WaitForInit st = Some st' /\
     initialized (priv st') = true /\
     renderUtil (priv st') = utilInit (renderUtil (priv st)) /\
     scene (priv st') = utilScene (utilInit (renderUtil (priv st))) /\
     updateAvailable (priv st') = false /\
     log st' = log st ++ [OpInit] /\ unlocked st' = true /\
     fault st' = None) /\
  (initialized (priv st) = false -> running (priv st) = true ->
   doInit (priv st) = false ->
   WaitForInit st = None /\
   exec [Next RenderT; Next RenderT] st =
     Some (set_renderPc R_WaitForInit_blocked st) /\
   step (Next RenderT) (set_renderPc R_WaitForInit_blocked st) = None).
Proof.
  intros Hf Hpc Hu. pose proof (unlocked_None st Hu) as Hm.
  split_and!.
  - intros [Hi|Hr]; unfold WaitForInit; alone_step.
  - intros Hi Hr Hd. eexists. split.
    + unfold WaitForInit. do 5 alone_step.
    + unfold unlocked. autorewrite with frame. fields.
      split_and!; try reflexivity. assumption.
  - intros Hi Hr Hd.
    assert (step (Next RenderT) st = Some (set_renderPc R_WaitForInit_wait st))
      as H1 by solve_step.
    assert (step (Next RenderT) (set_renderPc R_WaitForInit_wait st) =
            Some (set_renderPc R_WaitForInit_blocked
                    (set_renderPc R_WaitForInit_wait st))) as H2
      by solve_step.
    assert (step (Next RenderT)
              (set_renderPc R_WaitForInit_blocked st) = None) as H3.
    { rewrite step_render by done. reflexivity. }
    split_and!.
    + unfold WaitForInit.
      eapply alone_continue; [exact H1|solve_finished|].
      eapply alone_continue; [exact H2|solve_finished|].
      apply alone_blocked. exact H3.
    + simpl. rewrite H1, H2. reflexivity.
    + exact H3.
Qed.


(** X12. A rendering thread that is inside the loop of [WaitForInit]
    when [Stop] clears [running] still initialises the renderer if
    initialisation had been requested: woken with [doInit] set and
    [running] false it calls [renderUtil.Init()], sets [initialized],
    returns from [WaitForInit], and only then finds [running] false and
    exits. *)
Theorem WaitForInit_initialises_after_Stop (st : State) :
  fault st = None -> renderPc st = R_WaitForInit_wait -> unlocked st = true ->
  initialized (priv st) = false -> doInit (priv st) = true ->
  running (priv st) = false ->
  exists st', WaitForInit st = Some st' /\
    initialized (priv st') = true /\ log st' = log st ++ [OpInit] /\
    scene (priv st') = utilScene (utilInit (renderUtil (priv st))) /\
    unlocked st' = true /\
    step (Next RenderT) st' = Some (set_renderPc R_exited st').
Proof.
  intros Hf Hpc Hu Hi Hd Hr. pose proof (unlocked_None st Hu) as Hm.
  eexists. split.
  - unfold WaitForInit. do 4 alone_step.
  - unfold unlocked. autorewrite with frame. fields.
    split_and!; try reflexivity. solve_step.
Qed.

(** X13. [RunOnce] without a request, entered with the lock free: when
    the system is not running it returns at once, without a pass, with the
    request and the mask untouched and the lock free again; when the system
    is running and no request is published the thread goes to sleep in
    [renderCv.wait] with the lock released and nothing changed. *)
Theorem RunOnce_without_request (st : State) :
  fault st = None -> renderPc st = R_RunOnce_wait -> unlocked st = true ->
  (running (priv st) = false ->
   exists st', RunOnce st = Some st' /\
     log st' = log st /\ request st' = request st /\
     sensorMask (priv st') = sensorMask (priv st) /\
     renderUtil (priv st') = renderUtil (priv st) /\
     unlocked st' = true /\ fault st' = None) /\
  (running (priv st) = true -> updateAvailable (priv st) = false ->
   RunOnce st = None /\
   step (Next RenderT) st = Some (set_renderPc R_RunOnce_blocked st) /\
   step (Next RenderT) (set_renderPc R_RunOnce_blocked st) = None).
Proof.
  intros Hf Hpc Hu. pose proof (unlocked_None st Hu) as Hm.
  split.
  - intros Hr. eexists. split.
    + unfold RunOnce. do 2 alone_step.
    + unfold unlocked, request. autorewrite with frame. fields.
      split_and!; try reflexivity. assumption.
  - intros Hr Hua.
    assert (step (Next RenderT) st = Some (set_renderPc R_RunOnce_blocked st))
      as H1 by solve_step.
    assert (step (Next RenderT) (set_renderPc R_RunOnce_blocked st) = None)
      as H2.
    { rewrite step_render by done. reflexivity. }
    split_and!; [|exact H1|exact H2].
    unfold RunOnce. eapply alone_continue; [exact H1|solve_finished|].
    apply alone_blocked. exact H2.
Qed.

Section NullScene.
#[local] Opaque maskActive maskOps.

(** X14. A pass for a non-empty request on a system whose render utility
    gave no scene ([renderUtil.Scene()] returned null) dies at
    [scene->PreRender()]: [renderUtil.Update()] was called and the mask of
    every sensor of the request was updated, no sensor publishes, and the
    thread dies holding [renderMutex] with the request still pending. *)
Theorem RunOnce_null_scene (st : State) :
  fault st = None -> renderPc st = R_RunOnce_wait -> unlocked st = true ->
  running (priv st) = true -> updateAvailable (priv st) = true ->
  activeSensors (priv st) <> [] -> scene (priv st) = None ->
  exists st', RunOnce st = Some st' /\
    fault st' = Some NullDereference /\
    log st' =
      log st ++ [OpUpdate] ++
      maskOps (updateTime (priv st)) (activeSensors (priv st)) /\
    sensorMask (priv st') =
      maskActive (updateTime (priv st)) (activeSensors (priv st))
        (sensorMask (priv st)) /\
    sensorManager (priv st') = sensorManager (priv st) /\
    request st' = request st /\
    renderMutex (priv st') = Some RenderT.
Proof.
  intros Hf Hpc Hu Hr Hua Hact Hsc. pose proof (unlocked_None st Hu) as Hm.
  destruct (activeSensors (priv st)) as [|s0 rest] eqn:Ha; [done|].
  eexists. split.
  - unfold RunOnce. do 6 alone_step.
  - unfold request. autorewrite with frame. fields.
    rewrite <- ?app_assoc, Ha, Hua. split_and!; reflexivity.
Qed.

End NullScene.

End Solo.

(** ** Hand-offs between the two threads *)

Section Handshake.
Context `{Collaborators}.

#[local] Opaque scan maskActive maskOps.

(** With the rendering thread asleep, [notify_one] wakes it. *)
Lemma notify_one_render (st : State) (pc : RenderPc) :
  renderPc st = pc ->
  notify_one st =
    match pc with
    | R_WaitForInit_blocked => set_renderPc R_WaitForInit_wait st
    | R_RunOnce_blocked => set_renderPc R_RunOnce_wait st
    | _ => notify_one st
    end.
Proof.
  intros <-. unfold notify_one, waiters, renderBlocked, wake.
  by destruct (renderPc st).
Qed.


(** A step whose scan selects a sensor, with the worker asleep in
    [RunOnce]. *)
Lemma PostUpdate_wakes (info : UpdateInfo) (ecm : ECM) (st : State)
    (s0 : Sensor) (rest : list Sensor) :
  fault st = None -> simPc st = S_idle ->
  renderPc st = R_RunOnce_blocked -> unlocked st = true ->
  running (priv st) = true -> initialized (priv st) = true ->
  updateAvailable (priv st) = false ->
  snd (scan (sensorManager (priv st)) (simTime info) (sensorIds (priv st))
         (sensorMask (priv st))) = s0 :: rest ->
  exists st1,
    PostUpdate info ecm st = Some st1 /\
    fault st1 = None /\ renderPc st1 = R_RunOnce_wait /\
    simPc st1 = S_idle /\ unlocked st1 = true /\
    running (priv st1) = true /\ updateAvailable (priv st1) = true /\
    activeSensors (priv st1) = s0 :: rest /\
    updateTime (priv st1) = simTime info /\
    scene (priv st1) = scene (priv st) /\
    log st1 = log st ++ [OpUpdateFromECM (simTime info)] /\
    sensorMask (priv st1) =
      fst (scan (sensorManager (priv st)) (simTime info)
             (sensorIds (priv st)) (sensorMask (priv st))) /\
    sensorManager (priv st1) = sensorManager (priv st) /\
    renderUtil (priv st1) =
      utilUpdateFromECM info ecm (renderUtil (priv st)).
Proof.
  intros Hf Hs Hpc Hu Hr Hi Hua Ha.
  pose proof (unlocked_None st Hu) as Hm.
  eassert (PostUpdate info ecm st = Some _) as HP.
  { apply PostUpdate_call; [done|done|]. do 8 alone_step. }
  rewrite (notify_one_render _ R_RunOnce_blocked) in HP
    by (autorewrite with frame; exact Hpc).
  eexists. split; [exact HP|]. clear HP.
  unfold unlocked. autorewrite with frame. fields.
  split_and!; try reflexivity.
  - exact Hf.
  - exact Hr.
Qed.

(** A pass for a request that is not empty. *)
Lemma pass_runs (st : State) (sc : Scene) (s0 : Sensor) (rest : list Sensor) :
  fault st = None -> renderPc st = R_RunOnce_wait -> unlocked st = true ->
  running (priv st) = true -> updateAvailable (priv st) = true ->
  activeSensors (priv st) = s0 :: rest -> scene (priv st) = Some sc ->
  exists st', RunOnce st = Some st' /\
    log st' =
      log st ++ [OpUpdate] ++
      maskOps (updateTime (priv st)) (s0 :: rest) ++
      [OpPreRender sc; OpSensorsRunOnce (updateTime (priv st))] /\
    sensorMask (priv st') =
      maskActive (updateTime (priv st)) (s0 :: rest) (sensorMask (priv st)) /\
    sensorManager (priv st') =
      mgrRunOnce (updateTime (priv st)) (sensorManager (priv st)) /\
    renderUtil (priv st') = utilUpdate (renderUtil (priv st)) /\
    request st' = ([], updateTime (priv st), false) /\
    unlocked st' = true /\ fault st' = None.
Proof.
  intros Hf Hpc Hu Hr Hua Ha Hsc. pose proof (unlocked_None st Hu) as Hm.
  eexists. split.
  - unfold RunOnce. do 10 alone_step.
  - unfold unlocked, request. autorewrite with frame. fields.
    rewrite <- ?app_assoc. split_and!; try reflexivity. exact Hf.
Qed.

(** X16. A step and the pass it asks for. With the worker asleep in
    [RunOnce], the gate free and a scene present, a call of [PostUpdate]
    whose scan selects at least one sensor publishes the request and wakes
    the worker; the pass that follows synchronises the scene, masks every
    selected sensor from the time of the step, pre-renders once, lets the
    sensors publish with the time of the step, and hands the gate back
    empty. *)
Theorem publish_then_pass (info : UpdateInfo) (ecm : ECM) (st : State)
    (sc : Scene) :
  fault st = None -> simPc st = S_idle ->
  renderPc st = R_RunOnce_blocked -> unlocked st = true ->
  running (priv st) = true -> initialized (priv st) = true ->
  updateAvailable (priv st) = false -> scene (priv st) = Some sc ->
  let t := simTime info in
  let r := scan (sensorManager (priv st)) t (sensorIds (priv st))
             (sensorMask (priv st)) in
  snd r <> [] ->
  exists st1 st2,
    PostUpdate info ecm st = Some st1 /\
    request st1 = (snd r, t, true) /\ renderPc st1 = R_RunOnce_wait /\
    simPc st1 = S_idle /\ RunOnce st1 = Some st2 /\
    log st2 =
      log st ++ [OpUpdateFromECM t; OpUpdate] ++ maskOps t (snd r) ++
      [OpPreRender sc; OpSensorsRunOnce t] /\
    sensorMask (priv st2) = maskActive t (snd r) (fst r) /\
    sensorManager (priv st2) = mgrRunOnce t (sensorManager (priv st)) /\
    renderUtil (priv st2) =
      utilUpdate (utilUpdateFromECM info ecm (renderUtil (priv st))) /\
    request st2 = ([], t, false) /\ unlocked st2 = true /\
    fault st2 = None.
Proof.
  intros Hf Hs Hpc Hu Hr Hi Hua Hsc t r Hdue. subst t r.
  destruct (snd (scan (sensorManager (priv st)) (simTime info)
                   (sensorIds (priv st)) (sensorMask (priv st))))
    as [|s0 rest] eqn:Ha; [done|].
  destruct (PostUpdate_wakes info ecm st s0 rest Hf Hs Hpc Hu Hr Hi Hua Ha)
    as (st1 & HP & Hf1 & Hpc1 & Hs1 & Hu1 & Hr1 & Hua1 & Ha1 & Ht1 & Hsc1 &
        Hlog1 & Hmask1 & Hmgr1 & Hutil1).
  rewrite Hsc in Hsc1.
  destruct (pass_runs st1 sc s0 rest Hf1 Hpc1 Hu1 Hr1 Hua1 Ha1 Hsc1)
    as (st2 & HR & Hlog2 & Hmask2 & Hmgr2 & Hutil2 & Hreq2 & Hu2 & Hf2).
  exists st1, st2. split; [exact HP|].
  split; [unfold request; by rewrite Ha1, Ht1, Hua1|].
  split; [exact Hpc1|]. split; [exact Hs1|]. split; [exact HR|].
  rewrite Hlog2, Hmask2, Hmgr2, Hutil2, Hreq2, Hlog1, Hmask1, Hmgr1, Hutil1,
    Ht1, <- app_assoc.
  split_and!; try reflexivity; assumption.
Qed.

End Handshake.

(** ** Stopping from anywhere *)

Lemma kreleasing_all : all_Skel kreleasing = true.
Proof. vm_compute. reflexivity. Qed.


Section Release.
Context `{Collaborators}.

Lemma kfault_fault (st : State) :
  k_fault (skel st) = match fault st with Some _ => true | None => false end.
Proof. reflexivity. Qed.

Lemma release_reachable (n : nat) (st : State) :
  reachable st -> reachable (release n st).
Proof.
  revert st. induction n as [|n IH]; intros st Hr; [exact Hr|].
  cbn [release]. destruct (renderMutex (priv st)) as [t|]; [|exact Hr].
  destruct (step (Next t) st) as [st1|] eqn:Hstep; [|exact Hr].
  apply IH. exact (reachable_step allowed st (Next t) st1 Hr eq_refl Hstep).
Qed.

Lemma release_ctlPc (n : nat) (st : State) :
  kinv (skel st) = true -> ctlPc (release n st) = ctlPc st.
Proof.
  revert st. induction n as [|n IH]; intros st Hinv; [done|].
  cbn [release]. destruct (renderMutex (priv st)) as [t|] eqn:Hm; [|done].
  destruct (step (Next t) st) as [st1|] eqn:Hstep; [|done].
  assert (t <> CtlT) as Ht.
  { intros ->. pose proof (fact_mutex _ (kinv_Facts _ Hinv)) as Hx.
    rewrite Hm in Hx.
    destruct (Rlocked (renderPc st)), (Slocked (simPc st)); discriminate. }
  rewrite IH.
  - by eapply ctlPc_step.
  - eapply kpreserved_spec; [exact kinv_preserved|exact Hinv| |].
    + apply (allowed_kallowed (Next t) st). reflexivity.
    + rewrite <- skel_step, Hstep. reflexivity.
Qed.

(** The owner of the lock releases it within eight statements, unless
    the process dies on the way. *)
Lemma release_unlocked (n : nat) (st : State) :
  kinv (skel st) = true -> (klockDistance (skel st) <= n)%nat ->
  fault (release n st) = None -> unlocked (release n st) = true.
Proof.
  revert st. induction n as [|n IH]; intros st Hinv Hd Hf.
  - simpl in *.
    pose proof (all_Skel_spec _ kreleasing_all (skel st)) as Hk.
    unfold kreleasing in Hk. rewrite Hinv, kfault_fault, Hf in Hk.
    cbn [andb negb] in Hk. apply andb_prop in Hk as [Hk _].
    apply andb_prop in Hk as [_ Hk].
    assert (klockDistance (skel st) = 0)%nat as Hz by lia.
    rewrite Hz in Hk. exact Hk.
  - cbn [release] in *.
    destruct (renderMutex (priv st)) as [t|] eqn:Hm;
      [|unfold unlocked; by rewrite Hm].
    pose proof (all_Skel_spec _ kreleasing_all (skel st)) as Hk.
    unfold kreleasing in Hk. rewrite Hinv in Hk.
    destruct (k_fault (skel st)) eqn:Hkf.
    { rewrite kfault_fault in Hkf.
      destruct (fault st) eqn:Hfst; [|discriminate Hkf].
      unfold step in Hf. rewrite Hfst in Hf. congruence. }
    cbn [andb negb] in Hk. apply andb_prop in Hk as [Hk _].
    apply andb_prop in Hk as [Hk _].
    change (k_renderMutex (skel st)) with (renderMutex (priv st)) in Hk.
    rewrite Hm in Hk.
    destruct (kstep_Next t st) as [b Hkb].
    pose proof (all_bool_spec _ Hk b) as Hb. cbv beta in Hb.
    rewrite Hkb in Hb.
    destruct (step (Next t) st) as [st1|] eqn:Hstep; [|discriminate].
    change (skel <$> Some st1) with (Some (skel st1)) in Hb.
    assert (kinv (skel st1) = true) as Hinv1.
    { eapply kpreserved_spec; [exact kinv_preserved|exact Hinv| |].
      - apply (allowed_kallowed (Next t) st). reflexivity.
      - rewrite <- skel_step, Hstep. reflexivity. }
    apply orb_prop in Hb as [Hb|Hb%Nat.ltb_lt].
    + rewrite kfault_fault in Hb.
      destruct (fault st1) eqn:Hf1; [|discriminate].
      destruct n; simpl in Hf; [congruence|].
      destruct (renderMutex (priv st1)); [|congruence].
      unfold step in Hf. rewrite Hf1 in Hf. congruence.
    + apply IH; [exact Hinv1|lia|exact Hf].
Qed.

Lemma klockDistance_8 (st : State) :
  kinv (skel st) = true -> fault st = None ->
  (klockDistance (skel st) <= 8)%nat.
Proof.
  intros Hinv Hf.
  pose proof (all_Skel_spec _ kreleasing_all (skel st)) as Hk.
  unfold kreleasing in Hk. rewrite Hinv, kfault_fault, Hf in Hk.
  cbn [andb negb] in Hk. apply andb_prop in Hk as [_ Hk]. by apply Nat.leb_le.
Qed.

End Release.

Section StopCompletes.
Context `{Collaborators}.

Lemma kinv_step (l : Label) (st st' : State) :
  kinv (skel st) = true -> allowed l st = true -> step l st = Some st' ->
  kinv (skel st') = true.
Proof.
  intros Hinv Hl Hstep.
  eapply kpreserved_spec; [exact kinv_preserved|exact Hinv| |].
  - by apply allowed_kallowed.
  - rewrite <- skel_step, Hstep. reflexivity.
Qed.

(** [Stop] up to its join, entered with the lock free. *)
Lemma Stop_notifies (st : State) :
  fault st = None -> ctlPc st = C_idle -> unlocked st = true ->
  exists st1,
    exec [CallStop; Next CtlT; Next CtlT] st = Some st1 /\
    run allowed [CallStop; Next CtlT; Next CtlT] st = Some st1 /\
    fault st1 = None /\ ctlPc st1 = C_Stop_join /\ log st1 = log st.
Proof.
  intros Hf Hc Hu. pose proof (unlocked_None st Hu) as Hm.
  assert (step CallStop st = Some (set_ctlPc C_Stop_running st)) as H1.
  { unfold step. by rewrite Hf, Hc. }
  eassert (step (Next CtlT) (set_ctlPc C_Stop_running st) = Some _) as H2
    by solve_step.
  eassert (step (Next CtlT) _ = Some _) as H3.
  { match type of H2 with _ = Some ?x => instantiate (2 := x) end.
    solve_step. }
  eexists. split_and!.
  - cbn [exec]. rewrite H1, H2, H3. reflexivity.
  - cbn [run allowed]. rewrite H1, H2, H3. reflexivity.
  - autorewrite with frame. exact Hf.
  - autorewrite with frame. reflexivity.
  - autorewrite with frame. reflexivity.
Qed.

(** The join leaves the other threads and the data alone. *)
Lemma join_frame (st st' : State) :
  ctlPc st = C_Stop_join -> step (Next CtlT) st = Some st' ->
  renderPc st' = renderPc st /\ simPc st' = simPc st /\
  running (priv st') = running (priv st) /\
  renderMutex (priv st') = renderMutex (priv st) /\
  passes (log st') = passes (log st).
Proof.
  intros Hc Hstep. rewrite (passes_step _ _ _ Hstep).
  unfold step in Hstep. destruct (fault st); [discriminate|].
  unfold stepCtl in Hstep. rewrite Hc in Hstep.
  destruct (renderThread (priv st)).
  - destruct (renderPc st) eqn:Hpc; try discriminate.
    injection Hstep as <-. autorewrite with frame. fields.
    split_and!; try done; lia.
  - injection Hstep as <-. autorewrite with frame.
    split_and!; try done; lia.
Qed.

(** X17. From every reachable state in which [Stop] is not already
    running, a call of [Stop] can run to its end: the thread that holds
    [renderMutex] releases it within eight of its statements, [Stop] stores
    [running = false] and notifies, the rendering thread and the
    simulation thread run out within sixteen statements without beginning
    a pass, and the join goes through. Afterwards no rendering thread is
    left, [PostUpdate] has returned and the lock is free. The one way out
    is the death of the lock's owner at [scene->PreRender()]. *)
Theorem Stop_completes (st : State) :
  reachable st -> ctlPc st = C_idle -> fault (release 8 st) = None ->
  unlocked (release 8 st) = true /\
  exists st', shutdown st = Some st' /\
    ctlPc st' = C_idle /\ running (priv st') = false /\
    renderThread (priv st') = false /\ Rgone (renderPc st') = true /\
    simPc st' = S_idle /\ unlocked st' = true /\ fault st' = None /\
    passes (log st') = passes (log (release 8 st)).
Proof.
  intros Hr Hc Hf.
  pose proof (reachable_kinv st Hr) as Hinv.
  assert (fault st = None) as Hf0.
  { destruct (fault st) eqn:E; [|done]. exfalso.
    assert (release 8 st = st) as Hst.
    { cbn [release]. destruct (renderMutex (priv st)); [|done].
      unfold step. by rewrite E. }
    rewrite Hst in Hf. congruence. }
  assert (unlocked (release 8 st) = true) as Hu.
  { apply release_unlocked; [exact Hinv|by apply klockDistance_8|exact Hf]. }
  split; [exact Hu|].
  pose proof (release_reachable 8 st Hr) as Hr1.
  pose proof (release_ctlPc 8 st Hinv) as Hc1. rewrite Hc in Hc1.
  unfold shutdown.
  set (st1 := release 8 st) in *. clearbody st1.
  destruct (Stop_notifies st1 Hf Hc1 Hu) as (st2 & He & Hrun & Hf2 & Hc2 & Hl2).
  rewrite He.
  pose proof (reachableBy_run allowed _ _ _ Hr1 Hrun) as Hr2.
  pose proof (reachable_kinv st2 Hr2) as Hinv2.
  pose proof (kinv_Facts st2 Hinv2) as F2.
  assert (running (priv st2) = false) as Hrun2
    by (apply (fact_stopping _ F2); auto).
  assert (waiters st2 = []) as Hw2 by (by apply (fact_notified _ F2)).
  pose proof (kstopped_intro st2 Hinv2 Hrun2 Hw2 Hf2) as Hs2.
  pose proof (settle_stopped 16 st2 Hs2 (kdistance_bound _)) as Hsettle.
  cbv zeta in Hsettle.
  set (st3 := settle 16 st2) in *. clearbody st3.
  destruct Hsettle as (Hs3 & Hset & _ & Hpass & Hc3).
  destruct (kstopped_elim st3 Hs3) as (Hinv3 & Hrun3 & Hf3).
  destruct (ksettled_elim st3 Hset) as [Hg Hidle].
  destruct (join_enabled st3) as (st4 & Hj & Hc4 & Ht4 & Hf4 & _);
    [exact Hinv3|exact Hf3|by rewrite Hc3|exact Hg|].
  destruct (join_frame st3 st4) as (Hpc4 & Hs4 & Hrun4 & Hm4 & Hp4);
    [by rewrite Hc3|exact Hj|].
  exists st4. split; [exact Hj|].
  split_and!; try done.
  - by rewrite Hrun4.
  - by rewrite Hpc4.
  - by rewrite Hs4.
  - unfold unlocked. rewrite Hm4.
    rewrite (fact_mutex _ (kinv_Facts _ Hinv3)), Hidle.
    by destruct (renderPc st3).
  - by rewrite Hp4, Hpass, Hl2.
Qed.

End StopCompletes.

(** ** Serving a request *)

Lemma kserving_all : all_Skel kserving = true.
Proof. vm_compute. reflexivity. Qed.

Section Serving.
Context `{Collaborators}.

Lemma kawake_step (l : Label) (st st' : State) :
  kawake (skel st) = true -> allowed l st = true -> step l st = Some st' ->
  kawake (skel st') = true.
Proof.
  intros Hinv Hl Hstep.
  eapply kpreserved_spec; [exact kawake_preserved|exact Hinv| |].
  - by apply allowed_kallowed.
  - rewrite <- skel_step, Hstep. reflexivity.
Qed.

(** The rendering thread writes neither [running] nor [updateTime]. *)
Lemma render_frame (st st' : State) :
  step (Next RenderT) st = Some st' ->
  running (priv st') = running (priv st) /\
  updateTime (priv st') = updateTime (priv st).
Proof.
  intros Hstep. step_inv Hstep; autorewrite with frame; fields; done.
Qed.

Lemma serveDistance_bound (pc : RenderPc) :
  (1 <= serveDistance pc <= 11)%nat.
Proof. destruct pc; simpl; lia. Qed.

Lemma serve_done (n : nat) (st : State) :
  fault st <> None \/ updateAvailable (priv st) = false -> serve n st = st.
Proof.
  intros Hd. destruct n; [done|]. cbn [serve].
  destruct (updateAvailable (priv st)) eqn:Hua; [|done].
  destruct Hd as [Hf|Hd]; [|done].
  unfold step. by destruct (fault st).
Qed.

Lemma serve_spec (n : nat) (st : State) :
  kawake (skel st) = true -> running (priv st) = true ->
  updateAvailable (priv st) = true ->
  (serveDistance (renderPc st) <= n)%nat ->
  fault (serve n st) = None ->
  updateAvailable (priv (serve n st)) = false /\
  renderPc (serve n st) = R_RunOnce_notify /\
  running (priv (serve n st)) = true /\
  updateTime (priv (serve n st)) = updateTime (priv st) /\
  passes (log (serve n st)) = (passes (log st) + kowed (skel st))%nat.
Proof.
  revert st. induction n as [|n IH]; intros st Hk Hr Hua Hd Hf.
  { pose proof (serveDistance_bound (renderPc st)). lia. }
  assert (fault st = None) as Hf0.
  { destruct (fault st) eqn:E; [|done].
    rewrite serve_done in Hf by (left; congruence). congruence. }
  cbn [serve] in *. rewrite Hua in *.
  pose proof (all_Skel_spec _ kserving_all (skel st)) as Hs.
  unfold kserving in Hs. rewrite Hk, kfault_fault, Hf0 in Hs.
  change (k_running (skel st)) with (running (priv st)) in Hs.
  change (k_updateAvailable (skel st)) with (updateAvailable (priv st)) in Hs.
  rewrite Hr, Hua in Hs. cbn [andb negb] in Hs.
  destruct (kstep_Next RenderT st) as [b Hkb].
  pose proof (all_bool_spec _ Hs b) as Hb. cbv beta in Hb.
  rewrite Hkb in Hb.
  destruct (step (Next RenderT) st) as [st1|] eqn:Hstep; [|discriminate].
  change (skel <$> Some st1) with (Some (skel st1)) in Hb.
  apply andb_prop in Hb as [Howed%Nat.eqb_eq Hb].
  pose proof (passes_step _ _ _ Hstep) as Hp.
  change (k_render (skel st)) with (renderPc st) in Howed.
  destruct (render_frame _ _ Hstep) as [Hr1 Ht1].
  assert (passes (log st1) + kowed (skel st1) =
          passes (log st) + kowed (skel st))%nat as Hsum.
  { rewrite Hp, Howed. destruct (renderPc st); lia. }
  destruct (fault st1) eqn:Hf1.
  { rewrite serve_done in Hf by (left; congruence). congruence. }
  rewrite kfault_fault, Hf1 in Hb. cbn [orb] in Hb.
  change (k_render (skel st1)) with (renderPc st1) in Hb.
  change (k_render (skel st)) with (renderPc st) in Hb.
  change (k_updateAvailable (skel st1))
    with (updateAvailable (priv st1)) in Hb.
  change (k_running (skel st1)) with (running (priv st1)) in Hb.
  destruct (updateAvailable (priv st1)) eqn:Hua1; cbn [negb andb orb] in Hb.
  - apply andb_prop in Hb as [Hrun1 Hlt%Nat.ltb_lt].
    destruct (IH st1) as (H1 & H2 & H3 & H4 & H5); try done.
    + by eapply (kawake_step (Next RenderT)).
    + lia.
    + split_and!; try done; [congruence|lia].
  - rewrite orb_false_r in Hb.
    rewrite serve_done in * by (by right).
    split_and!; try done.
    + by destruct (renderPc st1).
    + congruence.
    + unfold kowed in Hsum at 1.
      change (k_updateAvailable (skel st1))
        with (updateAvailable (priv st1)) in Hsum.
      rewrite Hua1 in Hsum. simpl in Hsum. lia.
Qed.

(** X18. A published request is always taken. From every reachable
    state in which the system is running and a request is published, the
    rendering thread, given the processor, finishes the pass for it within
    eleven of its statements (unless it dies at [scene->PreRender()]): it
    clears [updateAvailable], has called [renderUtil.Update()] exactly once
    for the request, leaves its time alone, and its next statement, the
    notify of line 194, leaves no simulation thread asleep at the gate. *)
Theorem request_is_served (st : State) :
  reachable st -> running (priv st) = true ->
  updateAvailable (priv st) = true -> fault (serve 11 st) = None ->
  let st' := serve 11 st in
  updateAvailable (priv st') = false /\
  renderPc st' = R_RunOnce_notify /\
  updateTime (priv st') = updateTime (priv st) /\
  passes (log st') =
    (passes (log st) + if Rcounted (renderPc st) then 0 else 1)%nat /\
  exists st'', step (Next RenderT) st' = Some st'' /\
    simBlocked st'' = false /\ request st'' = request st'.
Proof.
  intros Hreach Hr Hua Hf st'.
  pose proof (reachable_kawake st Hreach) as Hk.
  destruct (serve_spec 11 st Hk Hr Hua) as (H1 & H2 & H3 & H4 & H5);
    [apply serveDistance_bound|exact Hf|].
  subst st'. set (st' := serve 11 st) in *. clearbody st'.
  split_and!; try done.
  - rewrite H5. unfold kowed.
    change (k_updateAvailable (skel st)) with (updateAvailable (priv st)).
    change (k_render (skel st)) with (renderPc st).
    rewrite Hua. by destruct (Rcounted (renderPc st)).
  - rewrite step_render by done. unfold stepRender. rewrite H2.
    eexists. split; [reflexivity|]. split.
    + unfold simBlocked, notify_one, waiters, renderBlocked, simBlocked.
      autorewrite with frame. rewrite H2.
      destruct (simPc st') eqn:Hs; simpl; rewrite ?Hs; reflexivity.
    + unfold request. by autorewrite with frame.
Qed.

(** X19. A spurious wake-up changes nothing. A thread that wakes inside
    [renderCv.wait] without a notify, while its predicate is false and the
    lock is free, takes the lock, tests the predicate and goes back to
    sleep: the state is the one before the wake-up. *)
Theorem spurious_wakeup_harmless (t : Tid) (st st1 : State) :
  unlocked st = true -> step (SpuriousWakeup t) st = Some st1 ->
  match t with
  | RenderT =>
      match renderPc st with
      | R_WaitForInit_blocked =>
          doInit (priv st) = false /\ running (priv st) = true
      | _ => running (priv st) = true /\ updateAvailable (priv st) = false
      end
  | _ => running (priv st) = true /\ updateAvailable (priv st) = true
  end ->
  step (Next t) st1 = Some st.
Proof.
  intros Hu Hstep Hpred. unfold step in Hstep.
  destruct (fault st) eqn:Hf; [discriminate|].
  destruct (waiting t st) eqn:Hw; [|discriminate]. injection Hstep as <-.
  destruct st as [d sp rp cp lg ft]. simpl in *. subst ft.
  unfold unlocked in Hu. simpl in Hu.
  destruct t; simpl in Hw.
  - unfold simBlocked in Hw. simpl in Hw.
    destruct sp; try discriminate. destruct Hpred as [Hr Hua].
    unfold step, wake, stepSim, unlocked. simpl. by rewrite Hu, Hr, Hua.
  - unfold renderBlocked in Hw. simpl in Hw.
    destruct rp; try discriminate; destruct Hpred as [H1 H2];
      unfold step, wake, stepRender, unlocked; simpl;
      by rewrite Hu, ?H1, ?H2.
  - discriminate.
Qed.

End Serving.

(** ** The further properties at work on the small instance *)

Lemma Demo_idling_reachable : reachable Demo.idling.
Proof.
  apply (reachableBy_run allowed Demo.startup Demo.fresh).
  - constructor.
  - vm_compute. reflexivity.
Qed.

Lemma Demo_pending_reachable : reachable Demo.pending.
Proof.
  apply (reachableBy_run allowed Demo.publishing Demo.idling).
  - exact Demo_idling_reachable.
  - vm_compute. reflexivity.
Qed.

Lemma Demo_stopped_reachable : reachable Demo.stopped.
Proof.
  apply (reachableBy_run allowed Demo.stopping Demo.idling).
  - exact Demo_idling_reachable.
  - vm_compute. reflexivity.
Qed.

Lemma Scenes_rendering_reachable : reachable Scenes.rendering.
Proof.
  apply (reachableBy_run allowed [Next RenderT; Next RenderT] Demo.pending).
  - exact Demo_pending_reachable.
  - vm_compute. reflexivity.
Qed.

Lemma Scenes_gated_reachable : reachable Scenes.gated.
Proof.
  apply (reachableBy_run allowed [Next SimT] Demo.second).
  - exact Demo_second_reachable.
  - vm_compute. reflexivity.
Qed.

Lemma scan_in_registry_order_witness :
  map Id (snd (@scan Demo.collaborators (sensorManager Demo.withA) 0
                 (sensorIds Demo.withA) (sensorMask Demo.withA)))
    `sublist_of` sensorIds Demo.withA.
Proof.
  destruct (@scan_in_registry_order Demo.collaborators
              (sensorManager Demo.withA) 0 (sensorIds Demo.withA)
              (sensorMask Demo.withA) Demo_consistent) as [Hsub _].
  exact Hsub.
Defined.


Lemma lock_discipline_witness :
  renderMutex (priv Scenes.rendering) = Some RenderT /\
  Rlocked (renderPc Scenes.rendering) && Slocked (simPc Scenes.rendering) =
    false.
Proof.
  destruct (lock_discipline Scenes.rendering Scenes_rendering_reachable)
    as (Hx & _).
  split; [reflexivity|exact Hx].
Defined.

Lemma no_lost_wakeup_witness :
  simBlocked Scenes.gated = true /\
  renderBlocked Scenes.gated = false /\
  Rgone (renderPc Scenes.gated) = false.
Proof.
  destruct (no_lost_wakeup Scenes.gated Scenes_gated_reachable)
    as (_ & _ & Hsim).
  destruct (Hsim eq_refl) as (_ & Hr & Hg).
  split; [reflexivity|]. split; [exact Hr|]. apply Hg.
  vm_compute. discriminate.
Defined.

Lemma Init_once_and_first_witness :
  initialized (priv Demo.idling) = true /\ inits (log Demo.idling) = 1%nat.
Proof.
  destruct (Init_once_and_first Demo.idling Demo_idling_reachable) as [Hi _].
  split; [reflexivity|exact Hi].
Defined.

Lemma passes_bounded_witness :
  owed Demo.pending = 1%nat /\
  (passes (log Demo.pending) + owed Demo.pending <= ecms (log Demo.pending))%nat.
Proof.
  split; [reflexivity|].
  exact (passes_bounded Demo.pending Demo_pending_reachable).
Defined.

Lemma worker_balance_witness :
  renderThread (priv Demo.stopped) = false /\
  spawns (log Demo.stopped) = 1%nat /\
  (joins (log Demo.stopped) + 0)%nat = spawns (log Demo.stopped).
Proof.
  destruct (worker_balance Demo.stopped Demo_stopped_reachable) as [Hs Hj].
  split; [reflexivity|]. split; [exact Hs|exact Hj].
Defined.

Lemma registry_only_grows_witness :
  sensorIds (priv (stepCallback Demo.camera "model" Demo.idling)) =
    [1%N; 2%N] /\
  forall id, id ∈ sensorIds (priv Demo.idling) ->
    id ∈ sensorIds (priv (stepCallback Demo.camera "model" Demo.idling)).
Proof.
  destruct (registry_only_grows (Callback Demo.camera "model") Demo.idling
              (stepCallback Demo.camera "model" Demo.idling))
    as (_ & Hin & _).
  - exact Demo_idling_reachable.
  - reflexivity.
  - split; [reflexivity|exact Hin].
Defined.

Lemma WaitForInit_spec_witness :
  renderPc Scenes.started = R_WaitForInit_while /\
  WaitForInit Scenes.started = None.
Proof.
  destruct (WaitForInit_spec Scenes.started) as (_ & _ & Hblock);
    try reflexivity.
  destruct Hblock as (Hnone & _); try reflexivity.
  split; [reflexivity|exact Hnone].
Defined.

Lemma WaitForInit_initialises_after_Stop_witness :
  running (priv Scenes.lateInit) = false /\
  exists st', WaitForInit Scenes.lateInit = Some st' /\
    initialized (priv st') = true.
Proof.
  destruct (WaitForInit_initialises_after_Stop Scenes.lateInit)
    as (st' & Hrun & Hi & _); try reflexivity.
  split; [reflexivity|]. exists st'. split; [exact Hrun|exact Hi].
Defined.

Lemma RunOnce_without_request_witness :
  renderPc Scenes.woken = R_RunOnce_wait /\ RunOnce Scenes.woken = None.
Proof.
  destruct (RunOnce_without_request Scenes.woken) as (_ & Hblock);
    try reflexivity.
  destruct Hblock as (Hnone & _); try reflexivity.
  split; [reflexivity|exact Hnone].
Defined.

Lemma RunOnce_null_scene_witness :
  initialized (priv Scenes.blind) = true /\
  exists st', @RunOnce Scenes.sceneless Scenes.blind = Some st' /\
    fault st' = Some NullDereference.
Proof.
  destruct (@RunOnce_null_scene Scenes.sceneless Scenes.blind)
    as (st' & Hrun & Hf & _); try reflexivity; try discriminate.
  split; [reflexivity|]. exists st'. split; [exact Hrun|exact Hf].
Defined.


Lemma publish_then_pass_witness :
  exists st1 st2,
    @PostUpdate Demo.collaborators 0 true Demo.idling = Some st1 /\
    RunOnce st1 = Some st2 /\ request st2 = ([], 0, false).
Proof.
  destruct (@publish_then_pass Demo.collaborators 0 true Demo.idling 1%N)
    as (st1 & st2 & HP & _ & _ & _ & HR & _ & _ & _ & _ & Hreq & _);
    try reflexivity; try discriminate.
  exists st1, st2. split; [exact HP|]. split; [exact HR|exact Hreq].
Defined.

Lemma Stop_completes_witness :
  renderThread (priv Demo.second) = true /\
  exists st', shutdown Demo.second = Some st' /\
    renderThread (priv st') = false /\ simPc st' = S_idle.
Proof.
  destruct (Stop_completes Demo.second)
    as (_ & st' & Hs & _ & _ & Ht & _ & Hsim & _).
  - exact Demo_second_reachable.
  - reflexivity.
  - vm_compute. reflexivity.
  - split; [reflexivity|]. exists st'.
    split; [exact Hs|]. split; [exact Ht|exact Hsim].
Defined.

Lemma request_is_served_witness :
  updateAvailable (priv Demo.pending) = true /\
  updateAvailable (priv (serve 11 Demo.pending)) = false /\
  passes (log (serve 11 Demo.pending)) =
    (passes (log Demo.pending) + 1)%nat.
Proof.
  destruct (request_is_served Demo.pending) as (Hua & _ & _ & Hp & _).
  - exact Demo_pending_reachable.
  - reflexivity.
  - reflexivity.
  - vm_compute. reflexivity.
  - split; [reflexivity|]. split; [exact Hua|exact Hp].
Defined.

Lemma spurious_wakeup_harmless_witness :
  renderPc Demo.idling = R_RunOnce_blocked /\
  step (Next RenderT) Scenes.woken = Some Demo.idling.
Proof.
  split; [reflexivity|].
  apply (spurious_wakeup_harmless RenderT Demo.idling Scenes.woken).
  - reflexivity.
  - vm_compute. reflexivity.
  - split; reflexivity.
Defined.
